(** * Umbrel application controller ([modules/apps/app.ts])

    A shallow embedding of the [App] class: the compose descriptor and the
    container-name patch, the lifecycle operations with their external
    calls, and the resource-usage aggregation on IEEE-754 doubles. *)

From Stdlib Require Import ZArith Ascii String List Bool Lia.
From Stdlib Require Import Floats.SpecFloat.
From stdpp Require Import base option list strings gmap.
Import ListNotations.

Local Open Scope string_scope.
Local Open Scope list_scope.

(** ** JavaScript values used by the controller *)

Module JS.

(** [Boolean(v)] / [!v] on a value typed [string | undefined]: only a
    non-empty string is truthy. *)
Definition truthy (v : option string) : bool :=
  match v with
  | Some s => negb (String.eqb s "")
  | None => false
  end.

(** [`${a}_${b}_1`] *)
Definition container_name_template (appId serviceName : string) : string :=
  appId +:+ "_" +:+ serviceName +:+ "_1".

End JS.

(** ** Compose descriptor ([Compose] of compose-spec-schema) *)

(** Parsed YAML that the controller carries around without inspecting. *)
#[local] Set Warnings "-register-all".
Inductive Yaml :=
| YNull
| YBool (b : bool)
| YNum (n : Z)
| YStr (s : string)
| YSeq (items : list Yaml)
| YMap (entries : list (string * Yaml)).
#[local] Set Warnings "register-all".

(** A service definition: the two fields the controller reads, both
    optional in the schema, and every other key of the entry. *)
Record Service := mkService {
  image : option string;
  container_name : option string;
  service_rest : list (string * Yaml)
}.

(** The [services] object as its own enumerable properties in
    [Object.keys] order, every entry an object of its own. This is what
    a descriptor shows when no two names share one object; a descriptor
    with a YAML alias standing for a whole service is [Loaded] below. *)
Definition Services := list (string * Service).

(** [compose.services!] is asserted present by the source; the remaining
    top-level keys (version, networks, ...) are kept as they were read. *)
Record Compose := mkCompose {
  services : Services;
  compose_rest : list (string * Yaml)
}.

Definition set_container_name (s : Service) (n : string) : Service :=
  {| image := image s; container_name := Some n; service_rest := service_rest s |}.

(** [services[k]] *)
Fixpoint get_service (k : string) (svcs : Services) : option Service :=
  match svcs with
  | [] => None
  | (k', s) :: rest => if String.eqb k' k then Some s else get_service k rest
  end.

(** [services[k] = s] for a key that is already a property: the entry is
    replaced where it stands. *)
Fixpoint put_service (k : string) (s : Service) (svcs : Services) : Services :=
  match svcs with
  | [] => []
  | (k', s') :: rest =>
      if String.eqb k' k then (k', s) :: rest
      else (k', s') :: put_service k s rest
  end.

Definition object_keys (svcs : Services) : list string := map fst svcs.
Definition object_values (svcs : Services) : list Service := map snd svcs.

(** One iteration of the loop of [patchComposeServices]. A key taken from
    [Object.keys] always names a property, so the [None] branch is not
    reached by the loop. *)
Definition patch_iteration (appId : string) (svcs : Services) (serviceName : string)
  : Services :=
  match get_service serviceName svcs with
  | Some s =>
      if negb (JS.truthy (container_name s))
      then put_service serviceName
             (set_container_name s (JS.container_name_template appId serviceName)) svcs
      else svcs
  | None => svcs
  end.

(** The loop [for (const serviceName of Object.keys(compose.services!))]. *)
Definition patch_services (appId : string) (svcs : Services) : Services :=
  fold_left (patch_iteration appId) (object_keys svcs) svcs.

(** The in-memory transformation that [patchComposeServices] performs
    between [readCompose] and [writeCompose]. *)
Definition patch_compose (appId : string) (c : Compose) : Compose :=
  {| services := patch_services appId (services c); compose_rest := compose_rest c |}.

(** What the loop does to one entry. *)
Definition patch_service (appId serviceName : string) (s : Service) : Service :=
  if negb (JS.truthy (container_name s))
  then set_container_name s (JS.container_name_template appId serviceName)
  else s.

(** The first entry under key [k], which is the one [services[k]] denotes,
    replaced by [f] of it. *)
Fixpoint alter_first (k : string) (f : Service -> Service) (svcs : Services)
  : Services :=
  match svcs with
  | [] => []
  | (k', s) :: rest =>
      if String.eqb k' k then (k', f s) :: rest
      else (k', s) :: alter_first k f rest
  end.

(** The loop over a list of keys, as a fold of [alter_first]. *)
Definition patch_keys (appId : string) (ks : list string) (svcs : Services)
  : Services :=
  fold_left (fun acc k => alter_first k (patch_service appId k) acc) ks svcs.

(** [Object.values(compose.services!).map(s => s.image).filter(Boolean)] *)
Definition old_images (c : Compose) : list string :=
  omap (fun v : option string => v)
       (List.filter JS.truthy (map image (object_values (services c)))).

(** ** The descriptor as [yaml.load] returns it

    [yaml.load] gives an alias the very object of its anchor: when a whole
    service is written as an alias ([db: *web]), two service names are
    bound to one object, and an assignment through one name shows under
    the other. [Loaded] keeps that sharing: the names, each bound to an
    object, and the objects. A descriptor without such aliases binds every
    name to an object of its own, and [Services] above is then what it
    shows. *)

Record Loaded := mkLoaded {
  (* service name and the object it is bound to, in [Object.keys] order *)
  bindings : list (string * nat);
  (* the service objects *)
  objects : list Service;
  loaded_rest : list (string * Yaml)
}.

(** The object that [services[k]] denotes. *)
Fixpoint get_ref (k : string) (bs : list (string * nat)) : option nat :=
  match bs with
  | [] => None
  | (k', r) :: rest => if String.eqb k' k then Some r else get_ref k rest
  end.

Definition bound_to (bs : list (string * nat)) (r : nat) (k : string) : bool :=
  match get_ref k bs with
  | Some r' => Nat.eqb r' r
  | None => false
  end.

(** The first service name, in key order, bound to the object [r]. *)
Definition first_name (bs : list (string * nat)) (r : nat) : option string :=
  List.find (bound_to bs r) (map fst bs).

(** One iteration of the loop of [patchComposeServices] on the loaded
    descriptor: the assignment goes to the object, whoever else is bound
    to it. *)
Definition loop_iteration (appId : string) (bs : list (string * nat))
    (objs : list Service) (serviceName : string) : list Service :=
  match get_ref serviceName bs with
  | Some r =>
      match objs !! r with
      | Some s =>
          if negb (JS.truthy (container_name s))
          then <[r := set_container_name s
                        (JS.container_name_template appId serviceName)]> objs
          else objs
      | None => objs
      end
  | None => objs
  end.

Definition patch_objects (appId : string) (bs : list (string * nat))
    (objs : list Service) : list Service :=
  fold_left (loop_iteration appId bs) (map fst bs) objs.

Definition patch_loaded (appId : string) (d : Loaded) : Loaded :=
  mkLoaded (bindings d) (patch_objects appId (bindings d) (objects d))
           (loaded_rest d).

(** What the loop leaves in an object: a non-empty name stays, and an
    object without one gets the name generated for the first of the
    visited service names bound to it. *)
Definition loop_result (appId : string) (bs : list (string * nat))
    (ks : list string) (r : nat) (s : Service) : Service :=
  if JS.truthy (container_name s) then s
  else match List.find (bound_to bs r) ks with
       | Some first => set_container_name s (JS.container_name_template appId first)
       | None => s
       end.

(** The rule of the loop on one entry of [Services]. *)
Definition patch_entry (appId : string) (entry : string * Service)
  : string * Service :=
  (fst entry, patch_service appId (fst entry) (snd entry)).

(** What the loaded descriptor shows: under each name, its object. *)
Definition shown (d : Loaded) : Compose :=
  mkCompose
    (omap (fun b : string * nat =>
             match objects d !! snd b with
             | Some s => Some (fst b, s)
             | None => None
             end)
          (bindings d))
    (loaded_rest d).

(** ** JavaScript numbers: IEEE-754 binary64 *)

(** Strings hold text in UTF-8, one [ascii] per byte. *)

Module Number.

Definition prec : Z := 53.
Definition emax : Z := 1024.

(** A JavaScript [number]; all NaNs are one value. *)
Definition t : Type := spec_float.

Definition NaN : t := S754_nan.
Definition add : t -> t -> t := SFadd prec emax.
Definition mul : t -> t -> t := SFmul prec emax.
Definition div : t -> t -> t := SFdiv prec emax.

(** An integer literal of the source ([0], [100]), rounded to nearest. *)
Definition of_Z (z : Z) : t := binary_normalize prec emax z 0 false.

(** The double nearest to [m / 10^k], as a decimal literal denotes it. *)
Definition of_decimal (negative : bool) (m : Z) (exp10 : Z) : t :=
  match m with
  | Zpos p =>
      match exp10 with
      | Zneg _ =>
          SFdiv prec emax (S754_finite negative p 0)
                (S754_finite false (Z.to_pos (10 ^ (- exp10))) 0)
      | _ => binary_normalize prec emax
               (if negative then Z.neg p * 10 ^ exp10 else Z.pos p * 10 ^ exp10)%Z
               0 negative
      end
  | _ => S754_zero negative
  end.

Definition is_digit (c : ascii) : bool :=
  let n := nat_of_ascii c in (48 <=? n)%nat && (n <=? 57)%nat.

Definition digit_value (c : ascii) : Z := Z.of_nat (nat_of_ascii c) - 48.

(** One-byte members of [StrWhiteSpaceChar] (TAB, LF, VT, FF, CR, SP). *)
Definition is_space (c : ascii) : bool :=
  let n := nat_of_ascii c in
  ((9 <=? n)%nat && (n <=? 13)%nat) || (n =? 32)%nat.

(** The other members of [StrWhiteSpaceChar], in the UTF-8 bytes in which
    a string holds them: U+00A0; U+1680; U+2000 to U+200A, U+2028, U+2029,
    U+202F; U+205F; U+3000; U+FEFF. *)
Definition is_space2 (a b : nat) : bool :=
  (a =? 194)%nat && (b =? 160)%nat.

Definition is_space3 (a b c : nat) : bool :=
  ((a =? 225)%nat && (b =? 154)%nat && (c =? 128)%nat)
  || ((a =? 226)%nat && (b =? 128)%nat
      && (((128 <=? c)%nat && (c <=? 138)%nat)
          || (c =? 168)%nat || (c =? 169)%nat || (c =? 175)%nat))
  || ((a =? 226)%nat && (b =? 129)%nat && (c =? 159)%nat)
  || ((a =? 227)%nat && (b =? 128)%nat && (c =? 128)%nat)
  || ((a =? 239)%nat && (b =? 187)%nat && (c =? 191)%nat).

(** Skips leading white space, one character (of one, two or three
    bytes) at a time. *)
Fixpoint skip_spaces (s : string) : string :=
  match s with
  | String c1 rest1 =>
      if is_space c1 then skip_spaces rest1
      else
        match rest1 with
        | String c2 rest2 =>
            if is_space2 (nat_of_ascii c1) (nat_of_ascii c2)
            then skip_spaces rest2
            else
              match rest2 with
              | String c3 rest3 =>
                  if is_space3 (nat_of_ascii c1) (nat_of_ascii c2)
                               (nat_of_ascii c3)
                  then skip_spaces rest3
                  else s
              | EmptyString => s
              end
        | EmptyString => s
        end
  | EmptyString => s
  end.

(** Reads a run of decimal digits, continuing the value [acc]; returns
    the value, the number of digits read and the unread rest. *)
Fixpoint read_digits (s : string) (acc : Z) (count : Z) : Z * Z * string :=
  match s with
  | String c rest =>
      if is_digit c
      then read_digits rest (10 * acc + digit_value c)%Z (count + 1)%Z
      else (acc, count, s)
  | EmptyString => (acc, count, s)
  end.

Definition read_sign (s : string) : bool * string :=
  match s with
  | String "-" rest => (true, rest)
  | String "+" rest => (false, rest)
  | _ => (false, s)
  end.

(** [ExponentPart]: read only when at least one digit follows. *)
Definition read_exponent (s : string) : Z :=
  match s with
  | String c rest =>
      if Ascii.eqb c "e" || Ascii.eqb c "E" then
        let '(neg, rest') := read_sign rest in
        let '(e, n, _) := read_digits rest' 0%Z 0%Z in
        if (n =? 0)%Z then 0%Z else if neg then (- e)%Z else e
      else 0%Z
  | EmptyString => 0%Z
  end.

(** The global [parseFloat]: leading white space is skipped, the longest
    prefix that is a [StrDecimalLiteral] is converted, and [NaN] is
    returned when there is no such prefix. *)
Definition parseFloat (input : string) : t :=
  let '(neg, s) := read_sign (skip_spaces input) in
  if String.prefix "Infinity" s then S754_infinity neg
  else
    let '(int_part, int_digits, after_int) := read_digits s 0%Z 0%Z in
    let '(mantissa, frac_digits, after_frac) :=
      match after_int with
      | String "." rest => read_digits rest int_part 0%Z
      | _ => (int_part, 0%Z, after_int)
      end in
    if ((int_digits =? 0) && (frac_digits =? 0))%Z then NaN
    else of_decimal neg mantissa (read_exponent after_frac - frac_digits).

End Number.

Arguments Number.of_Z : simpl never.
Arguments Number.of_decimal : simpl never.
Arguments Number.add : simpl never.
Arguments Number.mul : simpl never.
Arguments Number.div : simpl never.
Arguments Number.parseFloat : simpl never.

(** ** Exceptions, effects and the event trace *)

Inductive Error :=
| InvalidAppId (appId : string)
| TypeError (message : string)
| ExternalError (source detail : string).

Inductive Outcome (A : Type) :=
| Ok (value : A)
| Throw (error : Error).
Arguments Ok {A} value.
Arguments Throw {A} error.

(** A computation over a mutable state [S] that returns or throws. The
    state survives a throw, as an assigned field of [this] does. *)
Definition M (S A : Type) : Type := S -> Outcome A * S.

#[global] Instance M_ret {S} : MRet (M S) :=
  fun A (a : A) st => (Ok a, st).

#[global] Instance M_bind {S} : MBind (M S) :=
  fun A B (k : A -> M S B) (c : M S A) st =>
    match c st with
    | (Ok a, st') => k a st'
    | (Throw e, st') => (Throw e, st')
    end.

Definition throw {S A} (e : Error) : M S A := fun st => (Throw e, st).

(** [try { await c } catch {}] *)
Definition try_catch_ignore {S A} (c : M S A) : M S unit :=
  fun st => (Ok tt, snd (c st)).

Definition succeeded {A} (r : Outcome A) : bool :=
  match r with Ok _ => true | Throw _ => false end.

Inductive AppState :=
| unknown | installing | starting | running | stopping | stopped
| restarting | uninstalling | updating | ready.

(** One line of [docker stats --format json], after [JSON.parse]. *)
Record UsageSample := mkUsageSample {
  MemPerc : string;
  CPUPerc : string
}.

(** Everything the controller does that is visible from outside it, in
    program order: assignments to [this.state] and calls that leave the
    class. A call is recorded when it is made, whatever its outcome. *)
Inductive Event :=
| EvSetState (s : AppState)
| EvCreateChildLogger (name : string)
| EvLog (message : string)
| EvReadYaml (path : string)
| EvWriteYaml (path : string) (data : Compose)
| EvAppScript (action appId : string)
| EvDockerRmi (images : list string)
| EvRemove (path : string)
| EvLockAcquire
| EvStoreGet (key : string)
| EvStoreSet (key : string) (value : list string)
| EvLockRelease
| EvDockerStats (containers : list (option string))
| EvSystemMem
| EvDirectorySize (path : string).

(** The collaborators outside the class, over an arbitrary host state:
    each call returns or throws and may change the host. *)
Record Externals (Host : Type) := mkExternals {
  (* legacy-compat/app-script.js; the result is [stdout] *)
  appScript : string -> string -> Host -> Outcome string * Host;
  (* readYaml / writeYaml on a compose file *)
  readYaml : string -> Host -> Outcome Compose * Host;
  writeYaml : string -> Compose -> Host -> Outcome unit * Host;
  (* fse.remove *)
  fse_remove : string -> Host -> Outcome unit * Host;
  (* $`docker rmi ${images}` *)
  docker_rmi : list string -> Host -> Outcome unit * Host;
  (* $`docker stats --no-stream --format json ${containers}`, split into
     lines, each through JSON.parse *)
  docker_stats : list (option string) -> Host -> Outcome (list UsageSample) * Host;
  (* systemInformation.mem(), field [total] *)
  systemInformation_mem : Host -> Outcome Number.t * Host;
  (* utilities/get-directory-size.js *)
  getDirectorySize : string -> Host -> Outcome Number.t * Host
}.
Arguments appScript {Host} _ _ _ _.
Arguments readYaml {Host} _ _ _.
Arguments writeYaml {Host} _ _ _ _.
Arguments fse_remove {Host} _ _ _.
Arguments docker_rmi {Host} _ _ _.
Arguments docker_stats {Host} _ _ _.
Arguments systemInformation_mem {Host} _ _.
Arguments getDirectorySize {Host} _ _ _.

(** The world around one controller: the host, the daemon's persisted
    key-value store and the trace so far. *)
Record World (Host : Type) := mkWorld {
  host : Host;
  store : gmap string (list string);
  trace : list Event
}.
Arguments mkWorld {Host} _ _ _.
Arguments host {Host} _.
Arguments store {Host} _.
Arguments trace {Host} _.

Section Effects.
Context {Host : Type}.

Definition emit (ev : Event) : M (World Host) unit :=
  fun w => (Ok tt, mkWorld (host w) (store w) (trace w ++ [ev])).

(** An awaited external call: recorded, then run on the host. *)
Definition extern {A} (ev : Event) (call : Host -> Outcome A * Host)
  : M (World Host) A :=
  fun w =>
    let '(r, h) := call (host w) in
    (r, mkWorld h (store w) (trace w ++ [ev])).

(** Modelled from the spec: the accessors handed to the callback of
    [umbreld.store.getWriteLock] (the store is not part of this class).
    [get(key)] returns the current list of application IDs, [undefined]
    when nothing is stored under the key; [set(key, list)] persists a
    replacement list. *)
Definition store_get (key : string) : M (World Host) (option (list string)) :=
  fun w => (Ok (store w !! key),
            mkWorld (host w) (store w) (trace w ++ [EvStoreGet key])).

(** Modelled from the spec: [set(key, list)] of the same callback; the
    list replaces what was stored under the key. *)
Definition store_set (key : string) (value : list string) : M (World Host) unit :=
  fun w => (Ok tt,
            mkWorld (host w) (<[key := value]> (store w))
                    (trace w ++ [EvStoreSet key value])).

(** Modelled from the spec: [umbreld.store.getWriteLock(job)]. The lock
    is exclusive for the duration of [job]: it is taken before [job]
    starts and given back when [job] has returned or thrown. *)
Definition getWriteLock {A}
    (job : (string -> M (World Host) (option (list string))) ->
           (string -> list string -> M (World Host) unit) ->
           M (World Host) A)
  : M (World Host) A :=
  fun w =>
    let '(r, w') := job store_get store_set
                      (mkWorld (host w) (store w) (trace w ++ [EvLockAcquire])) in
    (r, mkWorld (host w') (store w') (trace w' ++ [EvLockRelease])).

End Effects.

(** ** The restricted character set of application IDs

    Letters, digits, hyphen and underscore, as the data model words it. *)

Definition letter (c : ascii) : Prop :=
  (nat_of_ascii "a" <= nat_of_ascii c <= nat_of_ascii "z")%nat
  \/ (nat_of_ascii "A" <= nat_of_ascii c <= nat_of_ascii "Z")%nat.

Definition digit (c : ascii) : Prop :=
  (nat_of_ascii "0" <= nat_of_ascii c <= nat_of_ascii "9")%nat.

Definition restricted_char (c : ascii) : Prop :=
  letter c \/ digit c \/ c = "-"%char \/ c = "_"%char.

Definition characters (s : string) : list ascii := list_ascii_of_string s.

(** ** The controller: [class App] *)

Module App.

Record t := mk {
  id : string;
  dataDirectory : string;
  state : AppState;
  stateProgress : Number.t
}.

(** A member of the class [[a-zA-Z0-9-_]]: after the range [0-9] the
    hyphen stands for itself. *)
Definition id_char (c : ascii) : bool :=
  let n := nat_of_ascii c in
  ((97 <=? n)%nat && (n <=? 122)%nat)
  || ((65 <=? n)%nat && (n <=? 90)%nat)
  || ((48 <=? n)%nat && (n <=? 57)%nat)
  || (n =? 45)%nat
  || (n =? 95)%nat.

Fixpoint all_id_chars (s : string) : bool :=
  match s with
  | EmptyString => true
  | String c rest => id_char c && all_id_chars rest
  end.

(** [/^[a-zA-Z0-9-_]+$/.test(appId)]: one or more characters of the
    class and nothing else, from the start to the end of the input. *)
Definition test_app_id (appId : string) : bool :=
  match appId with
  | EmptyString => false
  | String _ _ => all_id_chars appId
  end.

(** The object and the world it acts on. *)
Record Machine (Host : Type) := mkMachine {
  this : t;
  world : World Host
}.
Arguments mkMachine {Host} _ _.
Arguments this {Host} _.
Arguments world {Host} _.

Definition current_state {Host} (m : Machine Host) : AppState := state (this m).
Definition events {Host} (m : Machine Host) : list Event := trace (world m).
Definition host_of {Host} (m : Machine Host) : Host := host (world m).
Definition store_of {Host} (m : Machine Host) : gmap string (list string) :=
  store (world m).

Section Methods.
Context {Host : Type} (ext : Externals Host).

Definition lift {A} (c : M (World Host) A) : M (Machine Host) A :=
  fun m => let '(r, w) := c (world m) in (r, mkMachine (this m) w).

Definition get_this : M (Machine Host) t :=
  fun m => (Ok (this m), m).

(** [this.state = s] *)
Definition set_state (s : AppState) : M (Machine Host) unit :=
  fun m =>
    (Ok tt,
     mkMachine
       (mk (id (this m)) (dataDirectory (this m)) s (stateProgress (this m)))
       (mkWorld (host (world m)) (store (world m))
                (trace (world m) ++ [EvSetState s]))).

(** [this.logger.log(message)] *)
Definition log (message : string) : M (Machine Host) unit :=
  lift (emit (EvLog message)).

(** [await appScript(this.#umbreld, action, this.id)] *)
Definition runAppScript (action : string) : M (Machine Host) string :=
  self ← get_this;
  lift (extern (EvAppScript action (id self)) (appScript ext action (id self))).

Definition constructor (umbreld_dataDirectory appId : string)
  : M (World Host) t :=
  if negb (test_app_id appId) then throw (InvalidAppId appId)
  else
    emit (EvCreateChildLogger "app");;
    mret (mk appId (umbreld_dataDirectory +:+ "/app-data/" +:+ appId)
             unknown (Number.of_Z 0)).

Definition compose_path (self : t) : string :=
  dataDirectory self +:+ "/docker-compose.yml".

Definition readCompose : M (Machine Host) Compose :=
  self ← get_this;
  lift (extern (EvReadYaml (compose_path self)) (readYaml ext (compose_path self))).

Definition writeCompose (compose : Compose) : M (Machine Host) unit :=
  self ← get_this;
  lift (extern (EvWriteYaml (compose_path self) compose)
               (writeYaml ext (compose_path self) compose)).

Definition patchComposeServices : M (Machine Host) unit :=
  compose ← readCompose;
  self ← get_this;
  writeCompose (patch_compose (id self) compose).

Definition install : M (Machine Host) bool :=
  set_state installing;;
  patchComposeServices;;
  runAppScript "install";;
  set_state ready;;
  mret true.

Definition update : M (Machine Host) bool :=
  set_state updating;;
  self ← get_this;
  log ("Updating app " +:+ id self);;
  compose ← readCompose;
  let oldImages := old_images compose in
  runAppScript "pre-patch-update";;
  patchComposeServices;;
  runAppScript "post-patch-update";;
  try_catch_ignore
    (lift (extern (EvDockerRmi oldImages) (docker_rmi ext oldImages)));;
  set_state ready;;
  mret true.

Definition start : M (Machine Host) bool :=
  self ← get_this;
  log ("Starting app " +:+ id self);;
  set_state starting;;
  runAppScript "start";;
  set_state ready;;
  mret true.

Definition stop : M (Machine Host) bool :=
  set_state stopping;;
  runAppScript "stop";;
  set_state stopped;;
  mret true.

Definition restart : M (Machine Host) bool :=
  set_state restarting;;
  runAppScript "stop";;
  runAppScript "start";;
  set_state ready;;
  mret true.

(** [apps.filter((appId) => appId !== this.id)] *)
Definition without_id (self : t) (apps : list string) : list string :=
  List.filter (fun appId => negb (String.eqb appId (id self))) apps.

Definition uninstall : M (Machine Host) bool :=
  set_state uninstalling;;
  runAppScript "stop";;
  self ← get_this;
  lift (extern (EvRemove (dataDirectory self))
               (fse_remove ext (dataDirectory self)));;
  lift (getWriteLock (fun get set =>
    apps ← get "apps";
    match apps with
    | Some apps => set "apps" (without_id self apps)
    | None => throw (TypeError "apps is undefined")
    end));;
  mret true.

Definition getResourceUsage : M (Machine Host) (list UsageSample) :=
  compose ← readCompose;
  let containers := map container_name (object_values (services compose)) in
  lift (extern (EvDockerStats containers) (docker_stats ext containers)).

(** The accumulation loops of [getMemoryUsage] and [getCpuUsage]. *)
Definition total_percentage (field : UsageSample -> string)
    (containers : list UsageSample) : Number.t :=
  fold_left (fun total container =>
               Number.add total (Number.parseFloat (field container)))
            containers (Number.of_Z 0).

Definition getMemoryUsage : M (Machine Host) Number.t :=
  containers ← getResourceUsage;
  let totalMemoryPercentage := total_percentage MemPerc containers in
  total ← lift (extern EvSystemMem (systemInformation_mem ext));
  mret (Number.mul total (Number.div totalMemoryPercentage (Number.of_Z 100))).

Definition getCpuUsage : M (Machine Host) Number.t :=
  containers ← getResourceUsage;
  let totalCpuUsage := total_percentage CPUPerc containers in
  mret totalCpuUsage.

Definition getDiskUsage : M (Machine Host) Number.t :=
  self ← get_this;
  lift (extern (EvDirectorySize (dataDirectory self))
               (getDirectorySize ext (dataDirectory self))).

Definition getLogs : M (Machine Host) string :=
  runAppScript "logs".

End Methods.

End App.

(** ** A simulated host

    A small concrete instance of the collaborators, used to run the
    controller on examples: one compose file, scripts that succeed unless
    listed as failing, and an engine with canned statistics. *)

Module Sim.

Record Host := mkHost {
  compose_file : option Compose;
  (* the descriptor that the [pre-patch-update] script installs *)
  next_release : option Compose;
  (* script actions that exit non-zero *)
  failing_actions : list string;
  rmi_fails : bool;
  stats : option (list UsageSample);
  total_memory : Number.t
}.

Definition with_compose (h : Host) (c : option Compose) : Host :=
  mkHost c (next_release h) (failing_actions h) (rmi_fails h) (stats h)
         (total_memory h).

Definition sim_appScript (action appId : string) (h : Host)
  : Outcome string * Host :=
  if existsb (String.eqb action) (failing_actions h)
  then (Throw (ExternalError "app-script" action), h)
  else if String.eqb action "pre-patch-update"
       then (Ok "", match next_release h with
                    | Some c => with_compose h (Some c)
                    | None => h
                    end)
       else (Ok "", h).

Definition sim_readYaml (path : string) (h : Host) : Outcome Compose * Host :=
  match compose_file h with
  | Some c => (Ok c, h)
  | None => (Throw (ExternalError "readFile" path), h)
  end.

Definition sim_writeYaml (path : string) (c : Compose) (h : Host)
  : Outcome unit * Host :=
  (Ok tt, with_compose h (Some c)).

Definition sim_remove (path : string) (h : Host) : Outcome unit * Host :=
  (Ok tt, with_compose h None).

Definition sim_rmi (images : list string) (h : Host) : Outcome unit * Host :=
  if rmi_fails h then (Throw (ExternalError "docker" "rmi"), h) else (Ok tt, h).

(** The template of [$] takes strings: an [undefined] among the container
    names makes it throw a [TypeError] before the engine is started. *)
Definition all_defined (containers : list (option string)) : bool :=
  forallb (fun name => match name with Some _ => true | None => false end)
          containers.

Definition sim_stats (containers : list (option string)) (h : Host)
  : Outcome (list UsageSample) * Host :=
  if all_defined containers then
    match stats h with
    | Some samples => (Ok samples, h)
    | None => (Throw (ExternalError "docker" "stats"), h)
    end
  else (Throw (TypeError "Unexpected undefined in template expression"), h).

Definition sim_mem (h : Host) : Outcome Number.t * Host :=
  (Ok (total_memory h), h).

Definition sim_size (path : string) (h : Host) : Outcome Number.t * Host :=
  (Ok (Number.of_Z 0), h).

Definition externals : Externals Host :=
  mkExternals Host sim_appScript sim_readYaml sim_writeYaml sim_remove
              sim_rmi sim_stats sim_mem sim_size.

(** An application [bitcoin] with two services: [web] has an image and
    no container name, [db] has a pinned name and no image. *)
Definition web : Service := mkService (Some "nginx:1.0") None [].
Definition db : Service := mkService None (Some "legacy_db") [("restart", YStr "always")].
Definition compose_v1 : Compose :=
  mkCompose [("web", web); ("db", db)] [("version", YStr "3.7")].
Definition compose_v2 : Compose :=
  mkCompose [("web", mkService (Some "nginx:2.0") None []); ("db", db)]
            [("version", YStr "3.7")].

Definition samples : list UsageSample :=
  [mkUsageSample "10.0" "50.0"; mkUsageSample "5.5" "75.0"].

Definition host0 : Host :=
  mkHost (Some compose_v1) (Some compose_v2) [] false (Some samples)
         (Number.of_Z 16000000000).

(** The host after [patchComposeServices()]: every service is named. *)
Definition compose_patched : Compose := patch_compose "bitcoin" compose_v1.

Definition host_patched : Host :=
  mkHost (Some compose_patched) (Some compose_v2) [] false (Some samples)
         (Number.of_Z 16000000000).

Definition failing (actions : list string) (h : Host) : Host :=
  mkHost (compose_file h) (next_release h) actions (rmi_fails h) (stats h)
         (total_memory h).

Definition with_rmi_failing (h : Host) : Host :=
  mkHost (compose_file h) (next_release h) (failing_actions h) true (stats h)
         (total_memory h).

Definition with_stats (l : list UsageSample) (h : Host) : Host :=
  mkHost (compose_file h) (next_release h) (failing_actions h) (rmi_fails h)
         (Some l) (total_memory h).

Definition bitcoin : App.t :=
  App.mk "bitcoin" "/data/app-data/bitcoin" unknown (Number.of_Z 0).

Definition world0 (h : Host) : World Host :=
  mkWorld h {["apps" := ["lightning"; "bitcoin"; "mempool"]]} [].

Definition machine0 (h : Host) : App.Machine Host :=
  App.mkMachine bitcoin (world0 h).

End Sim.

(** ** [getResourceUsage], line by line

    The [docker_stats] collaborator taken apart as the source has it: the
    command's standard output, [split('\n')], and [JSON.parse] on every
    line in turn. *)

(** [stdout.split('\n')] *)
Fixpoint split_newline (s : string) : list string :=
  match s with
  | EmptyString => [EmptyString]
  | String c rest =>
      if Ascii.eqb c "010" then EmptyString :: split_newline rest
      else match split_newline rest with
           | line :: lines => String c line :: lines
           | [] => [String c EmptyString]
           end
  end.

(** [lines.join('\n')] *)
Fixpoint join_newline (lines : list string) : string :=
  match lines with
  | [] => EmptyString
  | [line] => line
  | line :: rest => line +:+ String "010" (join_newline rest)
  end.

(** [lines.map((line) => JSON.parse(line))]: the lines are parsed in
    order and the first throw ends the loop. *)
Fixpoint parse_each (JSON_parse : string -> Outcome UsageSample)
    (lines : list string) : Outcome (list UsageSample) :=
  match lines with
  | [] => Ok []
  | line :: rest =>
      match JSON_parse line with
      | Throw e => Throw e
      | Ok sample =>
          match parse_each JSON_parse rest with
          | Ok samples => Ok (sample :: samples)
          | Throw e => Throw e
          end
      end
  end.

(** [docker stats] from the command (its result is [stdout]) and
    [JSON.parse]. *)
Definition docker_stats_from {Host : Type}
    (run_docker_stats : list (option string) -> Host -> Outcome string * Host)
    (JSON_parse : string -> Outcome UsageSample)
    (containers : list (option string)) (h : Host)
  : Outcome (list UsageSample) * Host :=
  let '(r, h') := run_docker_stats containers h in
  match r with
  | Ok stdout => (parse_each JSON_parse (split_newline stdout), h')
  | Throw e => (Throw e, h')
  end.

(** The collaborators [ext] with [docker_stats] given in that form. *)
Definition with_docker_stats {Host : Type} (ext : Externals Host)
    (run_docker_stats : list (option string) -> Host -> Outcome string * Host)
    (JSON_parse : string -> Outcome UsageSample) : Externals Host :=
  mkExternals Host (appScript ext) (readYaml ext) (writeYaml ext)
    (fse_remove ext) (docker_rmi ext)
    (docker_stats_from run_docker_stats JSON_parse)
    (systemInformation_mem ext) (getDirectorySize ext).

(** The fields of the controller that no method assigns. *)
Definition same_identity (a b : App.t) : Prop :=
  App.id a = App.id b
  /\ App.dataDirectory a = App.dataDirectory b
  /\ App.stateProgress a = App.stateProgress b.

(** A stand-in for [JSON.parse] on the simulated host: the empty line is
    rejected, as the empty text is not JSON, and any other line is taken
    as the percentage itself. *)
Definition sim_JSON_parse (line : string) : Outcome UsageSample :=
  if String.eqb line ""
  then Throw (ExternalError "JSON.parse" "Unexpected end of JSON input")
  else Ok (mkUsageSample line line).

Definition sim_run_stats (stdout : string)
    (containers : list (option string)) (h : Sim.Host)
  : Outcome string * Sim.Host :=
  if Sim.all_defined containers then (Ok stdout, h)
  else (Throw (TypeError "Unexpected undefined in template expression"), h).

(** * Properties *)

(** ** Truthiness and the name template *)

Lemma truthy_Some_iff (v : option string) :
  JS.truthy v = true <-> exists s, v = Some s /\ s <> "".
Proof.
  destruct v as [s|]; simpl.
  - rewrite negb_true_iff. split.
    + intros H. exists s. split; [reflexivity|].
      intros ->. discriminate.
    + intros (s' & [= <-] & Hne).
      destruct (String.eqb_spec s ""); congruence.
  - split; [discriminate|]. intros (s & H & _). discriminate.
Qed.


Lemma append_nonempty_r (a b : string) : b <> "" -> a +:+ b <> "".
Proof.
  intros Hb. destruct a as [|c a]; simpl; [exact Hb | discriminate].
Qed.

Lemma template_truthy (appId serviceName : string) :
  JS.truthy (Some (JS.container_name_template appId serviceName)) = true.
Proof.
  apply truthy_Some_iff. eexists. split; [reflexivity|].
  unfold JS.container_name_template.
  do 3 apply append_nonempty_r. discriminate.
Qed.

(** ** The container-name patch *)

Section Patcher.
Variable appId : string.

Lemma patch_service_idem (k : string) (s : Service) :
  patch_service appId k (patch_service appId k s) = patch_service appId k s.
Proof.
  unfold patch_service.
  destruct (JS.truthy (container_name s)) eqn:Ht; cbn [negb].
  - now rewrite Ht.
  - unfold set_container_name at 1. cbn [container_name].
    now rewrite template_truthy.
Qed.

Lemma patch_service_image (k : string) (s : Service) :
  image (patch_service appId k s) = image s.
Proof. unfold patch_service. now destruct (JS.truthy _). Qed.

Lemma patch_service_rest (k : string) (s : Service) :
  service_rest (patch_service appId k s) = service_rest s.
Proof. unfold patch_service. now destruct (JS.truthy _). Qed.

(** An iteration acts on the entry that [services[k]] denotes. *)
Lemma patch_iteration_alter (svcs : Services) (k : string) :
  patch_iteration appId svcs k = alter_first k (patch_service appId k) svcs.
Proof.
  unfold patch_iteration, patch_service.
  induction svcs as [|[k' s] rest IH]; [reflexivity|].
  cbn [get_service alter_first put_service].
  destruct (String.eqb k' k) eqn:Hk.
  - destruct (JS.truthy (container_name s)); reflexivity.
  - destruct (get_service k rest) as [s0|] eqn:Hget.
    + destruct (JS.truthy (container_name s0)); cbn [negb put_service] in *;
        rewrite ?Hk, <- IH; reflexivity.
    + now rewrite <- IH.
Qed.

Lemma alter_first_keys k f svcs :
  object_keys (alter_first k f svcs) = object_keys svcs.
Proof.
  induction svcs as [|[k' s] rest IH]; simpl; [reflexivity|].
  destruct (String.eqb k' k); simpl; [reflexivity | now rewrite IH].
Qed.

Lemma alter_first_twice k f svcs :
  alter_first k f (alter_first k f svcs) = alter_first k (fun s => f (f s)) svcs.
Proof.
  induction svcs as [|[k' s] rest IH]; simpl; [reflexivity|].
  destruct (String.eqb k' k) eqn:Hk; simpl; rewrite Hk; [reflexivity|].
  now rewrite IH.
Qed.

Lemma alter_first_ext k f g svcs :
  (forall s, f s = g s) -> alter_first k f svcs = alter_first k g svcs.
Proof.
  intros Hfg. induction svcs as [|[k' s] rest IH]; simpl; [reflexivity|].
  destruct (String.eqb k' k); [now rewrite Hfg | now rewrite IH].
Qed.

Lemma alter_first_comm k j f g svcs :
  k <> j ->
  alter_first k f (alter_first j g svcs) = alter_first j g (alter_first k f svcs).
Proof.
  intros Hne. induction svcs as [|[k' s] rest IH]; simpl; [reflexivity|].
  destruct (String.eqb k' j) eqn:Hj; destruct (String.eqb k' k) eqn:Hk;
    simpl; rewrite ?Hj, ?Hk; try reflexivity.
  - apply String.eqb_eq in Hj, Hk. congruence.
  - now rewrite IH.
Qed.

Lemma get_alter_first k j f svcs :
  get_service k (alter_first j f svcs) =
  if String.eqb j k then option_map f (get_service k svcs) else get_service k svcs.
Proof.
  induction svcs as [|[k' s] rest IH]; simpl.
  - now destruct (String.eqb j k).
  - destruct (String.eqb k' j) eqn:Hj; simpl.
    + apply String.eqb_eq in Hj. subst k'.
      destruct (String.eqb j k); reflexivity.
    + destruct (String.eqb k' k) eqn:Hk; [|exact IH].
      destruct (String.eqb_spec j k) as [E|E]; [|reflexivity].
      rewrite E in Hj. congruence.
Qed.

Lemma patch_keys_cons k ks svcs :
  patch_keys appId (k :: ks) svcs
  = patch_keys appId ks (alter_first k (patch_service appId k) svcs).
Proof. reflexivity. Qed.

Lemma patch_services_fold svcs :
  patch_services appId svcs = patch_keys appId (object_keys svcs) svcs.
Proof.
  unfold patch_services, patch_keys.
  generalize (object_keys svcs) as ks. intros ks. revert svcs.
  induction ks as [|k ks IH]; intros svcs; simpl; [reflexivity|].
  now rewrite patch_iteration_alter, IH.
Qed.

Lemma patch_keys_keys ks svcs :
  object_keys (patch_keys appId ks svcs) = object_keys svcs.
Proof.
  revert svcs. induction ks as [|k ks IH]; intros svcs; simpl; [reflexivity|].
  unfold patch_keys in *. simpl. now rewrite IH, alter_first_keys.
Qed.

Lemma patch_step_idem k svcs :
  alter_first k (patch_service appId k) (alter_first k (patch_service appId k) svcs)
  = alter_first k (patch_service appId k) svcs.
Proof.
  rewrite alter_first_twice. apply alter_first_ext.
  intros s. apply patch_service_idem.
Qed.

Lemma patch_step_comm k j svcs :
  alter_first k (patch_service appId k) (alter_first j (patch_service appId j) svcs)
  = alter_first j (patch_service appId j) (alter_first k (patch_service appId k) svcs).
Proof.
  destruct (String.eqb_spec k j) as [->|Hne]; [reflexivity|].
  now apply alter_first_comm.
Qed.

Lemma patch_keys_step_comm k ks svcs :
  alter_first k (patch_service appId k) (patch_keys appId ks svcs)
  = patch_keys appId ks (alter_first k (patch_service appId k) svcs).
Proof.
  revert svcs. induction ks as [|j ks IH]; intros svcs; [reflexivity|].
  unfold patch_keys in *. simpl. rewrite IH. f_equal. apply patch_step_comm.
Qed.

Lemma patch_keys_idem ks svcs :
  patch_keys appId ks (patch_keys appId ks svcs) = patch_keys appId ks svcs.
Proof.
  revert svcs. induction ks as [|k ks IH]; intros svcs; [reflexivity|].
  rewrite !patch_keys_cons.
  rewrite <- (patch_keys_step_comm k ks svcs), patch_step_idem.
  rewrite (patch_keys_step_comm k ks svcs). apply IH.
Qed.

End Patcher.

Lemma get_service_key k svcs s :
  get_service k svcs = Some s -> existsb (String.eqb k) (object_keys svcs) = true.
Proof.
  induction svcs as [|[k' s'] rest IH]; simpl; [discriminate|].
  rewrite (String.eqb_sym k k').
  destruct (String.eqb k' k); simpl; auto.
Qed.

Lemma get_patch_keys appId k ks svcs :
  get_service k (patch_keys appId ks svcs) =
  if existsb (String.eqb k) ks
  then option_map (patch_service appId k) (get_service k svcs)
  else get_service k svcs.
Proof.
  revert svcs. induction ks as [|j ks IH]; intros svcs; [reflexivity|].
  rewrite patch_keys_cons, IH, get_alter_first. simpl.
  rewrite (String.eqb_sym k j).
  destruct (String.eqb j k) eqn:Hj; simpl.
  - apply String.eqb_eq in Hj. subst j.
    destruct (existsb _ ks); [|reflexivity].
    destruct (get_service k svcs); simpl; [|reflexivity].
    now rewrite patch_service_idem.
  - reflexivity.
Qed.

(** A service reachable under its name is, after the patch, the same
    service with [patch_service] applied. *)
Lemma get_patch_compose appId c k s :
  get_service k (services c) = Some s ->
  get_service k (services (patch_compose appId c)) = Some (patch_service appId k s).
Proof.
  intros Hget. unfold patch_compose. simpl.
  rewrite patch_services_fold, get_patch_keys.
  now rewrite (get_service_key _ _ _ Hget), Hget.
Qed.

(** C4. The container-name patch is idempotent: on every compose
    descriptor, patching twice gives exactly the descriptor that patching
    once gives. *)
Theorem patch_compose_idempotent (appId : string) (c : Compose) :
  patch_compose appId (patch_compose appId c) = patch_compose appId c.
Proof.
  unfold patch_compose. simpl. f_equal.
  rewrite !patch_services_fold, patch_keys_keys.
  apply patch_keys_idem.
Qed.

(** An explicit empty name counts as no name: [container_name: ""] is
    replaced by the patch. *)
Lemma explicit_empty_name_is_overwritten :
  let s := mkService (Some "nginx:1.0") (Some "") [] in
  let c := mkCompose [("web", s)] [] in
  get_service "web" (services c) = Some s
  /\ container_name s = Some ""
  /\ (container_name <$> get_service "web" (services (patch_compose "bitcoin" c)))
     = Some (Some "bitcoin_web_1").
Proof. repeat split. Qed.

(** ** Old images and the list of installed applications *)

Lemma old_images_In (c : Compose) (img : string) :
  In img (old_images c) <->
  exists s, In s (object_values (services c)) /\ image s = Some img /\ img <> "".
Proof.
  unfold old_images. generalize (object_values (services c)) as l.
  induction l as [|s l IH]; simpl.
  - split; [tauto | intros (s & [] & _)].
  - destruct (image s) as [i|] eqn:Hi; simpl.
    + destruct (String.eqb_spec i "") as [->|Hne]; simpl.
      * rewrite IH. split.
        -- intros (s' & Hin & H). exists s'. tauto.
        -- intros (s' & [<-|Hin] & Himg & Hne).
           ++ congruence.
           ++ exists s'. tauto.
      * rewrite IH. split.
        -- intros [<-|(s' & Hin & H)]; [exists s; tauto | exists s'; tauto].
        -- intros (s' & [<-|Hin] & Himg & Hne').
           ++ left. congruence.
           ++ right. exists s'. tauto.
    + rewrite IH. split.
      * intros (s' & Hin & H). exists s'. tauto.
      * intros (s' & [<-|Hin] & Himg & Hne).
        -- congruence.
        -- exists s'. tauto.
Qed.

(** [filter] with [!==] removes every occurrence and nothing else. *)
Lemma without_id_remove (appId : string) (apps : list string) :
  List.remove string_dec appId apps
  = List.filter (fun a => negb (String.eqb a appId)) apps.
Proof.
  induction apps as [|a apps IH]; simpl; [reflexivity|].
  destruct (string_dec appId a) as [<-|Hne].
  - now rewrite String.eqb_refl.
  - destruct (String.eqb_spec a appId); [congruence|]. simpl. now rewrite IH.
Qed.

(** ** Lifecycle operations *)

Ltac unfold_methods :=
  unfold App.getMemoryUsage, App.getCpuUsage, App.getDiskUsage, App.getLogs,
    App.install, App.update, App.start, App.stop, App.restart, App.uninstall,
    App.constructor in *;
  unfold App.getResourceUsage, App.patchComposeServices in *;
  unfold App.readCompose, App.writeCompose, App.runAppScript, App.log in *;
  unfold App.compose_path, App.set_state, App.get_this, App.lift,
    getWriteLock, store_get, store_set, extern, emit, throw,
    try_catch_ignore, mbind, M_bind, mret, M_ret,
    App.current_state, App.events, App.host_of, App.store_of in *.

(** Case analysis on the outcome of the next external call in the goal. *)
Ltac next_call :=
  match goal with
  | |- context [appScript ?e ?a ?i ?h] =>
      destruct (appScript e a i h) as [[?|?] ?] eqn:?
  | |- context [readYaml ?e ?p ?h] =>
      destruct (readYaml e p h) as [[?|?] ?] eqn:?
  | |- context [writeYaml ?e ?p ?c ?h] =>
      destruct (writeYaml e p c h) as [[?|?] ?] eqn:?
  | |- context [fse_remove ?e ?p ?h] =>
      destruct (fse_remove e p h) as [[?|?] ?] eqn:?
  | |- context [docker_rmi ?e ?l ?h] =>
      destruct (docker_rmi e l h) as [[?|?] ?] eqn:?
  | |- context [docker_stats ?e ?l ?h] =>
      destruct (docker_stats e l h) as [[?|?] ?] eqn:?
  | |- context [systemInformation_mem ?e ?h] =>
      destruct (systemInformation_mem e h) as [[?|?] ?] eqn:?
  end; cbn in *.

Section Lifecycle.
Context {Host : Type} (ext : Externals Host).
Implicit Types (m : App.Machine Host) (e : Error).

(** C1. In every run of [restart()] the state is set to [restarting],
    then the [stop] action is invoked, and [start] is invoked only on
    the host that the completed [stop] left; when [stop] fails, [start]
    is not invoked, the error propagates (and the state stays
    [restarting]); when both succeed the state is set to [ready] and the
    operation returns [true]. *)
Theorem restart_stop_then_start m :
  let appId := App.id (App.this m) in
  let stop_call := appScript ext "stop" appId (App.host_of m) in
  let start_call := appScript ext "start" appId (snd stop_call) in
  let result := fst (App.restart ext m) in
  let m' := snd (App.restart ext m) in
  (exists rest,
      App.events m' =
        App.events m ++ EvSetState restarting :: EvAppScript "stop" appId :: rest
      /\ (rest = []
          \/ rest = [EvAppScript "start" appId]
          \/ rest = [EvAppScript "start" appId; EvSetState ready])
      /\ (rest <> [] -> succeeded (fst stop_call) = true))
  /\ (forall e, fst stop_call = Throw e ->
        result = Throw e
        /\ App.events m' =
             App.events m ++ [EvSetState restarting; EvAppScript "stop" appId]
        /\ App.host_of m' = snd stop_call
        /\ App.current_state m' = restarting)
  /\ (succeeded (fst stop_call) = true -> succeeded (fst start_call) = true ->
        result = Ok true
        /\ App.events m' =
             App.events m ++ [EvSetState restarting; EvAppScript "stop" appId;
                              EvAppScript "start" appId; EvSetState ready]
        /\ App.host_of m' = snd start_call
        /\ App.current_state m' = ready).
Proof.
  unfold_methods. cbn.
  destruct m as [[appId dir st prog] [h sto tr]]. cbn.
  next_call; [next_call|].
  all: rewrite <- ?app_assoc; cbn.
  all: repeat split; eauto; try discriminate; try congruence.
  all: try (eexists; split; [reflexivity|]; split; eauto; discriminate).
  all: eexists; split; [reflexivity|]; split; eauto; congruence.
Qed.

(** C2. When the [install] script fails during [install()], its error
    reaches the caller, nothing further is done (the script call is the
    last event: no assignment of [ready] follows), and the state is left
    at [installing]. *)
Theorem install_script_failure m c h1 h2 e :
  let self := App.this m in
  let path := App.compose_path self in
  readYaml ext path (App.host_of m) = (Ok c, h1) ->
  writeYaml ext path (patch_compose (App.id self) c) h1 = (Ok tt, h2) ->
  fst (appScript ext "install" (App.id self) h2) = Throw e ->
  let result := fst (App.install ext m) in
  let m' := snd (App.install ext m) in
  result = Throw e
  /\ App.current_state m' = installing
  /\ App.events m' =
       App.events m ++ [EvSetState installing; EvReadYaml path;
                        EvWriteYaml path (patch_compose (App.id self) c);
                        EvAppScript "install" (App.id self)]
  /\ App.host_of m' = snd (appScript ext "install" (App.id self) h2).
Proof.
  unfold_methods. cbn.
  destruct m as [[appId dir st prog] [h sto tr]]. cbn.
  intros Hread Hwrite Hscript.
  rewrite Hread. cbn. rewrite Hwrite. cbn.
  destruct (appScript ext "install" appId h2) as [[out|e'] h3]; cbn in *;
    [discriminate|].
  injection Hscript as ->.
  rewrite <- !app_assoc. repeat split.
Qed.

(** Any failure inside [install()] leaves the state at [installing]. *)
Lemma install_failure_state m e :
  fst (App.install ext m) = Throw e ->
  App.current_state (snd (App.install ext m)) = installing.
Proof.
  unfold_methods. cbn.
  destruct m as [[appId dir st prog] [h sto tr]]. cbn.
  repeat next_call; intros; congruence.
Qed.

(** C3, amended. [update()] computes the old image references (the
    image of every service whose image is a non-empty string; services
    with no image, or with the empty string as image, are excluded) from
    the descriptor read before the pre-patch, patch and post-patch steps,
    attempts the removal of exactly those after the post-patch step, and
    whatever the outcome of the removal it sets the state to [ready] and
    returns [true]. *)
Theorem update_removes_old_images m c0 h1 out1 h2 c1 h3 h4 out2 h5 :
  let self := App.this m in
  let appId := App.id self in
  let path := App.compose_path self in
  readYaml ext path (App.host_of m) = (Ok c0, h1) ->
  appScript ext "pre-patch-update" appId h1 = (Ok out1, h2) ->
  readYaml ext path h2 = (Ok c1, h3) ->
  writeYaml ext path (patch_compose appId c1) h3 = (Ok tt, h4) ->
  appScript ext "post-patch-update" appId h4 = (Ok out2, h5) ->
  let removal := docker_rmi ext (old_images c0) h5 in
  let result := fst (App.update ext m) in
  let m' := snd (App.update ext m) in
  result = Ok true
  /\ App.current_state m' = ready
  /\ App.events m' =
       App.events m ++
         [EvSetState updating; EvLog ("Updating app " +:+ appId);
          EvReadYaml path; EvAppScript "pre-patch-update" appId;
          EvReadYaml path; EvWriteYaml path (patch_compose appId c1);
          EvAppScript "post-patch-update" appId;
          EvDockerRmi (old_images c0); EvSetState ready]
  /\ App.host_of m' = snd removal
  /\ (forall img,
        In img (old_images c0) <->
        exists s, In s (object_values (services c0))
                  /\ image s = Some img /\ img <> "").
Proof.
  unfold_methods. cbn.
  destruct m as [[appId dir st prog] [h sto tr]]. cbn.
  intros Hread0 Hpre Hread1 Hwrite Hpost.
  rewrite Hread0. cbn. rewrite Hpre. cbn. rewrite Hread1. cbn.
  rewrite Hwrite. cbn. rewrite Hpost. cbn.
  destruct (docker_rmi ext (old_images c0) h5) as [r h6]. cbn.
  rewrite <- !app_assoc.
  split; [reflexivity|]. split; [reflexivity|]. split; [reflexivity|].
  split; [reflexivity|]. apply old_images_In.
Qed.

(** C6. After a successful [uninstall()] the list persisted under
    ["apps"] is the previous list without any occurrence of this
    application's ID, the other IDs in their order (and nothing else in
    the store has changed); the list is read and written between taking
    and releasing the write lock; and [true] is returned after the lock
    is released. *)
Theorem uninstall_removes_id m b :
  fst (App.uninstall ext m) = Ok b ->
  let self := App.this m in
  let m' := snd (App.uninstall ext m) in
  b = true
  /\ exists apps,
       App.store_of m !! "apps" = Some apps
       /\ App.store_of m' =
            <["apps" := List.remove string_dec (App.id self) apps]> (App.store_of m)
       /\ App.events m' =
            App.events m ++
              [EvSetState uninstalling; EvAppScript "stop" (App.id self);
               EvRemove (App.dataDirectory self);
               EvLockAcquire; EvStoreGet "apps";
               EvStoreSet "apps" (List.remove string_dec (App.id self) apps);
               EvLockRelease].
Proof.
  unfold_methods. cbn.
  destruct m as [[appId dir st prog] [h sto tr]]. cbn.
  next_call; [|discriminate].
  next_call; [|discriminate].
  destruct (sto !! "apps") as [apps|] eqn:Happs; cbn; [|discriminate].
  intros [= <-]. split; [reflexivity|].
  exists apps. rewrite <- !app_assoc.
  unfold App.without_id. cbn. rewrite <- !without_id_remove.
  repeat split.
Qed.

(** C10. When [uninstall()] returns success the state is
    [uninstalling]: the assignment at its start is the only one it
    makes. Each of the other five operations ends a successful run in a
    terminal state, [stopped] for [stop()] and [ready] for the rest. *)
Theorem uninstall_sets_no_terminal_state m b :
  fst (App.uninstall ext m) = Ok b ->
  (App.current_state (snd (App.uninstall ext m)) = uninstalling
   /\ exists evs,
        App.events (snd (App.uninstall ext m)) =
          App.events m ++ EvSetState uninstalling :: evs
        /\ forall s, ~ In (EvSetState s) evs)
  /\ (forall r, fst (App.install ext m) = Ok r ->
        App.current_state (snd (App.install ext m)) = ready)
  /\ (forall r, fst (App.update ext m) = Ok r ->
        App.current_state (snd (App.update ext m)) = ready)
  /\ (forall r, fst (App.start ext m) = Ok r ->
        App.current_state (snd (App.start ext m)) = ready)
  /\ (forall r, fst (App.stop ext m) = Ok r ->
        App.current_state (snd (App.stop ext m)) = stopped)
  /\ (forall r, fst (App.restart ext m) = Ok r ->
        App.current_state (snd (App.restart ext m)) = ready).
Proof.
  intros Hok. split; [|repeat split].
  - revert Hok. unfold_methods. cbn.
    destruct m as [[appId dir st prog] [h sto tr]]. cbn.
    next_call; [|discriminate].
    next_call; [|discriminate].
    destruct (sto !! "apps") as [apps|] eqn:Happs; cbn; [|discriminate].
    intros _. split; [reflexivity|].
    eexists. rewrite <- !app_assoc. split; [reflexivity|].
    intros s Hin. cbn in Hin.
    repeat (destruct Hin as [Hin|Hin]; [discriminate|]). exact Hin.
  - clear Hok. unfold_methods. cbn.
    destruct m as [[appId dir st prog] [h sto tr]]. cbn.
    repeat next_call; intros; congruence.
  - clear Hok. unfold_methods. cbn.
    destruct m as [[appId dir st prog] [h sto tr]]. cbn.
    repeat next_call; intros; congruence.
  - clear Hok. unfold_methods. cbn.
    destruct m as [[appId dir st prog] [h sto tr]]. cbn.
    repeat next_call; intros; congruence.
  - clear Hok. unfold_methods. cbn.
    destruct m as [[appId dir st prog] [h sto tr]]. cbn.
    repeat next_call; intros; congruence.
  - clear Hok. unfold_methods. cbn.
    destruct m as [[appId dir st prog] [h sto tr]]. cbn.
    repeat next_call; intros; congruence.
Qed.

End Lifecycle.

(** ** Construction *)

Lemma ascii_code (c : ascii) (n : nat) :
  (n < 256)%nat -> c = ascii_of_nat n <-> nat_of_ascii c = n.
Proof.
  intros Hn. split.
  - intros ->. now apply nat_ascii_embedding.
  - intros <-. symmetry. apply ascii_nat_embedding.
Qed.

Lemma id_char_restricted (c : ascii) :
  App.id_char c = true <-> restricted_char c.
Proof.
  unfold App.id_char, restricted_char, letter, digit.
  change "-"%char with (ascii_of_nat 45). change "_"%char with (ascii_of_nat 95).
  rewrite !ascii_code by lia.
  change (nat_of_ascii "a") with 97%nat. change (nat_of_ascii "z") with 122%nat.
  change (nat_of_ascii "A") with 65%nat. change (nat_of_ascii "Z") with 90%nat.
  change (nat_of_ascii "0") with 48%nat. change (nat_of_ascii "9") with 57%nat.
  rewrite !orb_true_iff, !andb_true_iff, !Nat.leb_le, !Nat.eqb_eq. tauto.
Qed.

Lemma all_id_chars_restricted (s : string) :
  App.all_id_chars s = true <->
  forall c, In c (characters s) -> restricted_char c.
Proof.
  induction s as [|a s IH]; simpl.
  - split; [intros _ c [] | reflexivity].
  - rewrite andb_true_iff, IH, id_char_restricted. split.
    + intros [Ha Hs] c [<-|Hc]; auto.
    + intros H. split; [apply H; now left | intros c Hc; apply H; now right].
Qed.

(** C8 as stated fails on the empty ID: every character of [""] is in the
    restricted set, and construction throws. *)
Lemma empty_app_id_is_rejected :
  (forall c, In c (characters "") -> restricted_char c)
  /\ App.constructor "/data" "" (Sim.world0 Sim.host0)
     = (Throw (InvalidAppId ""), Sim.world0 Sim.host0).
Proof. split; [intros c [] | reflexivity]. Qed.

(** C8, amended. Construction with an ID that contains a character
    outside letters, digits, hyphen and underscore throws at once and
    leaves the world as it was: host, store and trace. Construction with a
    non-empty ID made only of those characters returns the controller, in
    state [unknown], without touching host or store. *)
Theorem constructor_checks_id {Host : Type} (base appId : string) (w : World Host) :
  ((exists c, In c (characters appId) /\ ~ restricted_char c) ->
     App.constructor base appId w = (Throw (InvalidAppId appId), w))
  /\ (appId <> "" ->
      (forall c, In c (characters appId) -> restricted_char c) ->
      fst (App.constructor base appId w)
        = Ok (App.mk appId (base +:+ "/app-data/" +:+ appId) unknown (Number.of_Z 0))
      /\ host (snd (App.constructor base appId w)) = host w
      /\ store (snd (App.constructor base appId w)) = store w).
Proof.
  split.
  - intros (c & Hin & Hbad).
    assert (Hall : App.all_id_chars appId = false).
    { destruct (App.all_id_chars appId) eqn:Hall; [|reflexivity].
      exfalso. apply Hbad. now apply (proj1 (all_id_chars_restricted appId) Hall). }
    unfold App.constructor, App.test_app_id.
    destruct appId as [|a rest]; [reflexivity|].
    now rewrite Hall.
  - intros Hne Hall. apply all_id_chars_restricted in Hall.
    unfold App.constructor, App.test_app_id.
    destruct appId as [|a rest]; [congruence|].
    rewrite Hall. repeat split.
Qed.

Lemma constructor_checks_id_witness :
  App.constructor "/data" "my app" (Sim.world0 Sim.host0)
    = (Throw (InvalidAppId "my app"), Sim.world0 Sim.host0)
  /\ App.constructor "/data" "../etc" (Sim.world0 Sim.host0)
    = (Throw (InvalidAppId "../etc"), Sim.world0 Sim.host0)
  /\ fst (App.constructor "/data" "bitcoin-node_2" (Sim.world0 Sim.host0))
    = Ok (App.mk "bitcoin-node_2" "/data/app-data/bitcoin-node_2" unknown
                 (Number.of_Z 0)).
Proof.
  split; [|split].
  - apply (proj1 (constructor_checks_id "/data" "my app" (Sim.world0 Sim.host0))).
    exists " "%char. split; [simpl; tauto|].
    intros H. apply id_char_restricted in H. discriminate.
  - apply (proj1 (constructor_checks_id "/data" "../etc" (Sim.world0 Sim.host0))).
    exists "/"%char. split; [simpl; tauto|].
    intros H. apply id_char_restricted in H. discriminate.
  - apply (proj2 (constructor_checks_id "/data" "bitcoin-node_2"
                    (Sim.world0 Sim.host0))).
    + discriminate.
    + apply all_id_chars_restricted. reflexivity.
Defined.

(** ** Resource usage *)

(** [parseFloat] on what the engine prints. *)
Example parseFloat_percent :
  Number.parseFloat "10.00%" = Number.of_Z 10
  /\ Number.parseFloat "5.5" = Number.of_decimal false 55 (-1)
  /\ Number.parseFloat " -0.75e2x" = Number.of_Z (-75)
  /\ Number.parseFloat (String (ascii_of_nat 194) (String (ascii_of_nat 160) "10.00%"))
     = Number.of_Z 10
  /\ Number.parseFloat (String (ascii_of_nat 226) (String (ascii_of_nat 128)
                           (String (ascii_of_nat 168) " 5.5")))
     = Number.of_decimal false 55 (-1)
  /\ Number.parseFloat "--" = Number.NaN
  /\ Number.parseFloat "" = Number.NaN
  /\ Number.parseFloat "n/a" = Number.NaN.
Proof. vm_compute. repeat split. Qed.

Lemma add_NaN_l (x : Number.t) : Number.add Number.NaN x = Number.NaN.
Proof. reflexivity. Qed.

Lemma add_NaN_r (x : Number.t) : Number.add x Number.NaN = Number.NaN.
Proof. now destruct x. Qed.

Lemma div_NaN_l (x : Number.t) : Number.div Number.NaN x = Number.NaN.
Proof. reflexivity. Qed.

Lemma mul_NaN_r (x : Number.t) : Number.mul x Number.NaN = Number.NaN.
Proof. now destruct x. Qed.

Lemma total_percentage_sum (field : UsageSample -> string) (l : list UsageSample) :
  App.total_percentage field l
  = fold_left Number.add (map (fun s => Number.parseFloat (field s)) l)
              (Number.of_Z 0).
Proof.
  unfold App.total_percentage. generalize (Number.of_Z 0) as acc.
  induction l as [|s l IH]; intros acc; simpl; [reflexivity | apply IH].
Qed.

Lemma sum_from_NaN (l : list Number.t) :
  fold_left Number.add l Number.NaN = Number.NaN.
Proof. induction l as [|x l IH]; simpl; [reflexivity | exact IH]. Qed.

(** One unparsable field makes the accumulated total [NaN]. *)
Lemma total_percentage_NaN (field : UsageSample -> string)
    (l : list UsageSample) (bad : UsageSample) :
  In bad l -> Number.parseFloat (field bad) = Number.NaN ->
  App.total_percentage field l = Number.NaN.
Proof.
  intros Hin Hbad. rewrite total_percentage_sum.
  generalize (Number.of_Z 0) as acc.
  induction l as [|s l IH]; intros acc; [destruct Hin|].
  simpl. destruct Hin as [->|Hin].
  - rewrite Hbad, add_NaN_r. apply sum_from_NaN.
  - now apply IH.
Qed.

Section Usage.
Context {Host : Type} (ext : Externals Host).
Implicit Types (m : App.Machine Host).

Lemma getMemoryUsage_run m c h1 samples h2 total h3 :
  readYaml ext (App.compose_path (App.this m)) (App.host_of m) = (Ok c, h1) ->
  docker_stats ext (map container_name (object_values (services c))) h1
    = (Ok samples, h2) ->
  systemInformation_mem ext h2 = (Ok total, h3) ->
  fst (App.getMemoryUsage ext m)
    = Ok (Number.mul total
            (Number.div (App.total_percentage MemPerc samples)
                        (Number.of_Z 100))).
Proof.
  unfold_methods. cbn.
  destruct m as [[appId dir st prog] [h sto tr]]. cbn.
  intros ->. cbn. intros ->. cbn. intros ->. reflexivity.
Qed.

Lemma getCpuUsage_run m c h1 samples h2 :
  readYaml ext (App.compose_path (App.this m)) (App.host_of m) = (Ok c, h1) ->
  docker_stats ext (map container_name (object_values (services c))) h1
    = (Ok samples, h2) ->
  fst (App.getCpuUsage ext m) = Ok (App.total_percentage CPUPerc samples).
Proof.
  unfold_methods. cbn.
  destruct m as [[appId dir st prog] [h sto tr]]. cbn.
  intros ->. cbn. intros ->. reflexivity.
Qed.

(** C9. [getMemoryUsage()] returns the host's total memory multiplied by
    (the sum of the parsed memory percentages of the containers, divided
    by 100), in double arithmetic; with percentages [10.0] and [5.5] and
    a total of 16000000000 bytes the result is the double
    [16000000000 * 0.155]. *)
Theorem memory_usage_formula m c h1 samples h2 total h3 :
  readYaml ext (App.compose_path (App.this m)) (App.host_of m) = (Ok c, h1) ->
  docker_stats ext (map container_name (object_values (services c))) h1
    = (Ok samples, h2) ->
  systemInformation_mem ext h2 = (Ok total, h3) ->
  let percentages := map (fun s => Number.parseFloat (MemPerc s)) samples in
  fst (App.getMemoryUsage ext m)
    = Ok (Number.mul total
            (Number.div (fold_left Number.add percentages (Number.of_Z 0))
                        (Number.of_Z 100)))
  /\ (percentages = [Number.of_decimal false 100 (-1);
                     Number.of_decimal false 55 (-1)] ->
      total = Number.of_Z 16000000000 ->
      fst (App.getMemoryUsage ext m)
        = Ok (Number.mul (Number.of_Z 16000000000)
                         (Number.of_decimal false 155 (-3)))).
Proof.
  intros Hread Hstats Hmem percentages.
  pose proof (getMemoryUsage_run m c h1 samples h2 total h3 Hread Hstats Hmem)
    as Hrun.
  rewrite total_percentage_sum in Hrun. fold percentages in Hrun.
  split; [exact Hrun|].
  intros Hp ->. rewrite Hrun, Hp.
  (* (0 + 10.0 + 5.5) / 100 is the double 0.155 *)
  assert (Hsum : Number.div
                   (fold_left Number.add
                      [Number.of_decimal false 100 (-1);
                       Number.of_decimal false 55 (-1)] (Number.of_Z 0))
                   (Number.of_Z 100)
                 = Number.of_decimal false 155 (-3))
    by (vm_compute; reflexivity).
  now rewrite Hsum.
Qed.

(** C7, amended. A usage sample whose memory or CPU percentage does not
    parse (the parse gives [NaN]) does not make the query throw, and it
    does not count as zero either: the total becomes [NaN], so
    [getMemoryUsage()] and [getCpuUsage()] return [NaN]. *)
Theorem unparsable_sample_gives_NaN m c h1 samples h2 bad :
  readYaml ext (App.compose_path (App.this m)) (App.host_of m) = (Ok c, h1) ->
  docker_stats ext (map container_name (object_values (services c))) h1
    = (Ok samples, h2) ->
  In bad samples ->
  (Number.parseFloat (MemPerc bad) = Number.NaN ->
     forall total h3, systemInformation_mem ext h2 = (Ok total, h3) ->
     fst (App.getMemoryUsage ext m) = Ok Number.NaN)
  /\ (Number.parseFloat (CPUPerc bad) = Number.NaN ->
      fst (App.getCpuUsage ext m) = Ok Number.NaN).
Proof.
  intros Hread Hstats Hin. split.
  - intros Hbad total h3 Hmem.
    rewrite (getMemoryUsage_run m c h1 samples h2 total h3 Hread Hstats Hmem).
    rewrite (total_percentage_NaN MemPerc samples bad Hin Hbad).
    now rewrite div_NaN_l, mul_NaN_r.
  - intros Hbad.
    rewrite (getCpuUsage_run m c h1 samples h2 Hread Hstats).
    now rewrite (total_percentage_NaN CPUPerc samples bad Hin Hbad).
Qed.

End Usage.

(** ** Runs on the simulated host *)

Lemma restart_stop_then_start_witness :
  (fst (App.restart Sim.externals (Sim.machine0 (Sim.failing ["stop"] Sim.host0)))
     = Throw (ExternalError "app-script" "stop")
   /\ App.events (snd (App.restart Sim.externals
                         (Sim.machine0 (Sim.failing ["stop"] Sim.host0))))
      = [EvSetState restarting; EvAppScript "stop" "bitcoin"])
  /\ (fst (App.restart Sim.externals (Sim.machine0 Sim.host0)) = Ok true
      /\ App.events (snd (App.restart Sim.externals (Sim.machine0 Sim.host0)))
         = [EvSetState restarting; EvAppScript "stop" "bitcoin";
            EvAppScript "start" "bitcoin"; EvSetState ready]).
Proof.
  split.
  - destruct (restart_stop_then_start Sim.externals
                (Sim.machine0 (Sim.failing ["stop"] Sim.host0)))
      as (_ & Hfail & _).
    destruct (Hfail _ eq_refl) as (Hres & Hev & _).
    split; [exact Hres | exact Hev].
  - destruct (restart_stop_then_start Sim.externals (Sim.machine0 Sim.host0))
      as (_ & _ & Hok).
    destruct (Hok eq_refl eq_refl) as (Hres & Hev & _).
    split; [exact Hres | exact Hev].
Defined.

Lemma install_script_failure_witness :
  fst (App.install Sim.externals (Sim.machine0 (Sim.failing ["install"] Sim.host0)))
    = Throw (ExternalError "app-script" "install")
  /\ App.current_state
       (snd (App.install Sim.externals
               (Sim.machine0 (Sim.failing ["install"] Sim.host0))))
     = installing.
Proof.
  destruct (install_script_failure Sim.externals
              (Sim.machine0 (Sim.failing ["install"] Sim.host0))
              Sim.compose_v1
              (Sim.failing ["install"] Sim.host0)
              (Sim.with_compose (Sim.failing ["install"] Sim.host0)
                 (Some (patch_compose "bitcoin" Sim.compose_v1)))
              (ExternalError "app-script" "install")
              eq_refl eq_refl eq_refl)
    as (Hres & Hstate & _).
  split; [exact Hres | exact Hstate].
Defined.

(** C3 as stated fails on a service whose image is the empty string: the
    service has an [image] field, and the field is not among the old
    images. *)
Lemma empty_image_is_not_collected :
  let s := mkService (Some "") (Some "web") [] in
  let c := mkCompose [("web", s); ("db", mkService (Some "postgres:15") None [])] [] in
  In s (object_values (services c))
  /\ image s = Some ""
  /\ old_images c = ["postgres:15"].
Proof. repeat split. now left. Qed.

Lemma update_removes_old_images_witness :
  let m := Sim.machine0 (Sim.with_rmi_failing Sim.host0) in
  fst (docker_rmi Sim.externals ["nginx:1.0"]
         (App.host_of (snd (App.update Sim.externals m))))
    = Throw (ExternalError "docker" "rmi")
  /\ fst (App.update Sim.externals m) = Ok true
  /\ App.current_state (snd (App.update Sim.externals m)) = ready
  /\ In (EvDockerRmi ["nginx:1.0"]) (App.events (snd (App.update Sim.externals m))).
Proof.
  intros m.
  pose (h := Sim.with_rmi_failing Sim.host0).
  pose (h2 := Sim.with_compose h (Some Sim.compose_v2)).
  pose (h4 := Sim.with_compose h (Some (patch_compose "bitcoin" Sim.compose_v2))).
  destruct (update_removes_old_images Sim.externals m
              Sim.compose_v1 h "" h2 Sim.compose_v2 h2 h4 "" h4
              eq_refl eq_refl eq_refl eq_refl eq_refl)
    as (Hres & Hstate & Hev & _).
  split; [reflexivity|]. split; [exact Hres|]. split; [exact Hstate|].
  rewrite Hev. simpl. tauto.
Defined.

Lemma uninstall_removes_id_witness :
  let m := Sim.machine0 Sim.host0 in
  App.store_of m !! "apps" = Some ["lightning"; "bitcoin"; "mempool"]
  /\ fst (App.uninstall Sim.externals m) = Ok true
  /\ App.store_of (snd (App.uninstall Sim.externals m)) !! "apps"
     = Some ["lightning"; "mempool"].
Proof.
  intros m.
  destruct (uninstall_removes_id Sim.externals m true eq_refl)
    as (_ & apps & Happs & Hstore & _).
  split; [reflexivity|]. split; [reflexivity|].
  rewrite Hstore, lookup_insert_eq.
  change (App.store_of m !! "apps")
    with (Some ["lightning"; "bitcoin"; "mempool"]) in Happs.
  injection Happs as <-. reflexivity.
Defined.

Lemma uninstall_sets_no_terminal_state_witness :
  fst (App.uninstall Sim.externals (Sim.machine0 Sim.host0)) = Ok true
  /\ App.current_state (snd (App.uninstall Sim.externals (Sim.machine0 Sim.host0)))
     = uninstalling
  /\ App.current_state (snd (App.stop Sim.externals (Sim.machine0 Sim.host0)))
     = stopped.
Proof.
  destruct (uninstall_sets_no_terminal_state Sim.externals
              (Sim.machine0 Sim.host0) true eq_refl)
    as ((Hstate & _) & _ & _ & _ & Hstop & _).
  split; [reflexivity|]. split; [exact Hstate|].
  exact (Hstop true eq_refl).
Defined.

Lemma memory_usage_formula_witness :
  fst (App.getMemoryUsage Sim.externals (Sim.machine0 Sim.host_patched))
    = Ok (Number.mul (Number.of_Z 16000000000) (Number.of_decimal false 155 (-3)))
  /\ Number.mul (Number.of_Z 16000000000) (Number.of_decimal false 155 (-3))
     = Number.of_Z 2480000000.
Proof.
  split; [|vm_compute; reflexivity].
  apply (proj2 (memory_usage_formula Sim.externals (Sim.machine0 Sim.host_patched)
                  Sim.compose_patched Sim.host_patched Sim.samples Sim.host_patched
                  (Number.of_Z 16000000000) Sim.host_patched
                  eq_refl eq_refl eq_refl)).
  - vm_compute. reflexivity.
  - reflexivity.
Defined.

(** C7 as stated fails on a sample that docker reports as ["--"]: it does
    not count as zero, it turns both totals into [NaN]. *)
Lemma unparsable_sample_is_not_zero :
  let bad := mkUsageSample "--" "--" in
  let good := mkUsageSample "10.0" "50.0" in
  let m := Sim.machine0 (Sim.with_stats [bad; good] Sim.host_patched) in
  Number.parseFloat (MemPerc bad) = Number.NaN
  /\ Number.parseFloat (CPUPerc bad) = Number.NaN
  /\ fst (App.getCpuUsage Sim.externals
            (Sim.machine0 (Sim.with_stats [good] Sim.host_patched)))
     = Ok (Number.of_Z 50)
  /\ fst (App.getCpuUsage Sim.externals m) = Ok Number.NaN
  /\ fst (App.getMemoryUsage Sim.externals m) = Ok Number.NaN.
Proof. vm_compute. repeat split. Qed.

Lemma unparsable_sample_gives_NaN_witness :
  let bad := mkUsageSample "--" "n/a" in
  let m := Sim.machine0 (Sim.with_stats [mkUsageSample "10.0" "50.0"; bad] Sim.host_patched) in
  fst (App.getMemoryUsage Sim.externals m) = Ok Number.NaN
  /\ fst (App.getCpuUsage Sim.externals m) = Ok Number.NaN.
Proof.
  intros bad m.
  pose (h := Sim.with_stats [mkUsageSample "10.0" "50.0"; bad] Sim.host_patched).
  destruct (unparsable_sample_gives_NaN Sim.externals m Sim.compose_patched h
              [mkUsageSample "10.0" "50.0"; bad] h bad eq_refl eq_refl
              (or_intror (or_introl eq_refl)))
    as [Hmem Hcpu].
  split.
  - apply (Hmem eq_refl (Number.of_Z 16000000000) h). reflexivity.
  - apply Hcpu. reflexivity.
Defined.

(** The CPU total is not clamped: 50% and 75% add up to 125%. *)
Example cpu_usage_example :
  fst (App.getCpuUsage Sim.externals (Sim.machine0 Sim.host_patched))
  = Ok (Number.of_Z 125).
Proof. vm_compute. reflexivity. Qed.

(** * Further properties of the controller *)

(** ** The patch, entry by entry *)

Lemma patch_service_truthy (appId k : string) (s : Service) :
  JS.truthy (container_name (patch_service appId k s)) = true.
Proof.
  unfold patch_service.
  destruct (JS.truthy (container_name s)) eqn:Ht; cbn [negb]; [exact Ht|].
  unfold set_container_name. cbn [container_name]. apply template_truthy.
Qed.

Lemma get_patch_keys_None appId k ks svcs :
  get_service k svcs = None -> get_service k (patch_keys appId ks svcs) = None.
Proof.
  intros Hnone. rewrite get_patch_keys, Hnone.
  now destruct (existsb _ ks).
Qed.

(** After the patch every service that the descriptor has under a name
    carries a non-empty container name. *)
Theorem patched_names_are_nonempty (appId : string) (c : Compose)
    (serviceName : string) (s' : Service) :
  get_service serviceName (services (patch_compose appId c)) = Some s' ->
  exists n, container_name s' = Some n /\ n <> "".
Proof.
  intros Hget. apply truthy_Some_iff.
  destruct (get_service serviceName (services c)) as [s|] eqn:Horig.
  - rewrite (get_patch_compose appId c serviceName s Horig) in Hget.
    injection Hget as <-. apply patch_service_truthy.
  - unfold patch_compose in Hget. cbn [services] in Hget.
    rewrite patch_services_fold, get_patch_keys_None in Hget by exact Horig.
    discriminate.
Qed.

Lemma patched_names_are_nonempty_witness :
  exists n,
    container_name (mkService None (Some "legacy_db") [("restart", YStr "always")])
      = Some n /\ n <> "".
Proof.
  apply (patched_names_are_nonempty "bitcoin" Sim.compose_v1 "db"). reflexivity.
Defined.

Lemma alter_first_images k f svcs :
  (forall s, image (f s) = image s) ->
  map image (object_values (alter_first k f svcs))
  = map image (object_values svcs).
Proof.
  intros Hf. unfold object_values.
  induction svcs as [|[k' s] rest IH]; simpl; [reflexivity|].
  destruct (String.eqb k' k); simpl; [now rewrite Hf | now rewrite IH].
Qed.

Lemma patch_keys_images appId ks svcs :
  map image (object_values (patch_keys appId ks svcs))
  = map image (object_values svcs).
Proof.
  revert svcs. induction ks as [|k ks IH]; intros svcs; [reflexivity|].
  rewrite patch_keys_cons, IH. apply alter_first_images.
  intros s. apply patch_service_image.
Qed.

(** The patch does not change which images a descriptor refers to: the
    old images computed from a patched descriptor are those of the
    descriptor itself, in the same order. *)
Theorem patch_preserves_old_images (appId : string) (c : Compose) :
  old_images (patch_compose appId c) = old_images c.
Proof.
  unfold old_images, patch_compose. cbn [services].
  now rewrite patch_services_fold, patch_keys_images.
Qed.

Lemma alter_first_skip k j f s svcs :
  j <> k -> alter_first j f ((k, s) :: svcs) = (k, s) :: alter_first j f svcs.
Proof.
  intros Hne. simpl. destruct (String.eqb_spec k j); [congruence | reflexivity].
Qed.

Lemma patch_keys_skip appId k s ks svcs :
  ~ In k ks ->
  patch_keys appId ks ((k, s) :: svcs) = (k, s) :: patch_keys appId ks svcs.
Proof.
  revert svcs s. induction ks as [|j ks IH]; intros svcs s Hnot; [reflexivity|].
  rewrite !patch_keys_cons, alter_first_skip.
  - apply IH. intros Hin. apply Hnot. now right.
  - intros ->. apply Hnot. now left.
Qed.

Lemma patch_services_map appId svcs :
  List.NoDup (object_keys svcs) ->
  patch_services appId svcs
  = map (fun entry => (fst entry, patch_service appId (fst entry) (snd entry))) svcs.
Proof.
  rewrite patch_services_fold.
  induction svcs as [|[k s] rest IH]; intros Hnd; [reflexivity|].
  apply List.NoDup_cons_iff in Hnd as [Hnot Hnd].
  cbn [object_keys map fst snd]. rewrite patch_keys_cons.
  cbn [alter_first]. rewrite String.eqb_refl.
  rewrite patch_keys_skip by exact Hnot.
  f_equal. now apply IH.
Qed.






(** Across applications they can: an underscore may sit on either side. *)
Example generated_names_collide_across_apps :
  JS.container_name_template "a_b" "c" = JS.container_name_template "a" "b_c".
Proof. reflexivity. Qed.

(** ** Lifecycle operations: failures, frames and composition *)

Ltac destruct_machine m :=
  destruct m as [[?appId ?dir ?st ?prog] [?h ?sto ?tr]]; cbn.

(** Closes a goal [~ In ev evs] or [In ev evs -> False] on an explicit
    list of events of other kinds. *)
Ltac not_in_events :=
  let Hin := fresh "Hin" in
  intros Hin; cbn in Hin;
  repeat (destruct Hin as [Hin|Hin]; [discriminate|]); exact Hin.

Section LifecycleFrames.
Context {Host : Type} (ext : Externals Host).
Implicit Types (m : App.Machine Host) (e : Error).

(** An operation that throws leaves [this.state] at the value it assigned
    on entry: there is no failed state and no roll-back. *)
Theorem failure_leaves_intermediate_state m e :
  (fst (App.install ext m) = Throw e ->
     App.current_state (snd (App.install ext m)) = installing)
  /\ (fst (App.update ext m) = Throw e ->
      App.current_state (snd (App.update ext m)) = updating)
  /\ (fst (App.start ext m) = Throw e ->
      App.current_state (snd (App.start ext m)) = starting)
  /\ (fst (App.stop ext m) = Throw e ->
      App.current_state (snd (App.stop ext m)) = stopping)
  /\ (fst (App.restart ext m) = Throw e ->
      App.current_state (snd (App.restart ext m)) = restarting)
  /\ (fst (App.uninstall ext m) = Throw e ->
      App.current_state (snd (App.uninstall ext m)) = uninstalling).
Proof.
  repeat split; unfold_methods; cbn; destruct_machine m;
    repeat next_call; try (intros; congruence).
  destruct (sto !! "apps"); cbn; intros; congruence.
Qed.

(** No lifecycle operation, whatever its outcome, changes the id, the
    data directory or the progress indicator of the controller. *)
Theorem lifecycle_keeps_identity m :
  same_identity (App.this (snd (App.install ext m))) (App.this m)
  /\ same_identity (App.this (snd (App.update ext m))) (App.this m)
  /\ same_identity (App.this (snd (App.start ext m))) (App.this m)
  /\ same_identity (App.this (snd (App.stop ext m))) (App.this m)
  /\ same_identity (App.this (snd (App.restart ext m))) (App.this m)
  /\ same_identity (App.this (snd (App.uninstall ext m))) (App.this m).
Proof.
  unfold same_identity.
  repeat apply conj; unfold_methods; cbn; destruct_machine m;
    repeat next_call; try reflexivity.
  all: destruct (sto !! "apps"); reflexivity.
Qed.

(** Only [uninstall()] writes to the persisted store: the other five
    operations leave it as it was, whatever their outcome. *)
Theorem store_untouched_outside_uninstall m :
  App.store_of (snd (App.install ext m)) = App.store_of m
  /\ App.store_of (snd (App.update ext m)) = App.store_of m
  /\ App.store_of (snd (App.start ext m)) = App.store_of m
  /\ App.store_of (snd (App.stop ext m)) = App.store_of m
  /\ App.store_of (snd (App.restart ext m)) = App.store_of m.
Proof.
  repeat apply conj; unfold_methods; cbn; destruct_machine m;
    repeat next_call; reflexivity.
Qed.

(** The five queries are read-only on the controller and the store:
    whatever the collaborators answer, [this] (the state included) and the
    persisted store are as before. *)
Theorem queries_are_read_only m :
  (App.this (snd (App.getResourceUsage ext m)) = App.this m
   /\ App.store_of (snd (App.getResourceUsage ext m)) = App.store_of m)
  /\ (App.this (snd (App.getMemoryUsage ext m)) = App.this m
      /\ App.store_of (snd (App.getMemoryUsage ext m)) = App.store_of m)
  /\ (App.this (snd (App.getCpuUsage ext m)) = App.this m
      /\ App.store_of (snd (App.getCpuUsage ext m)) = App.store_of m)
  /\ (App.this (snd (App.getDiskUsage ext m)) = App.this m
      /\ App.store_of (snd (App.getDiskUsage ext m)) = App.store_of m)
  /\ (App.this (snd (App.getLogs ext m)) = App.this m
      /\ App.store_of (snd (App.getLogs ext m)) = App.store_of m).
Proof.
  repeat apply conj; unfold_methods; cbn; destruct_machine m;
    repeat next_call; try reflexivity.
  all: match goal with
       | |- context [getDirectorySize ?e ?p ?h] =>
           destruct (getDirectorySize e p h) as [[?|?] ?]; reflexivity
       end.
Qed.

End LifecycleFrames.

Section LifecycleRuns.
Context {Host : Type} (ext : Externals Host).
Implicit Types (m : App.Machine Host) (e : Error).

(** When [stop] succeeds and [start] then fails inside [restart()], the
    error of [start] reaches the caller and the state stays [restarting]:
    it is not [stopped], although the application has been stopped. *)
Theorem restart_start_failure m e :
  let appId := App.id (App.this m) in
  let stop_call := appScript ext "stop" appId (App.host_of m) in
  let start_call := appScript ext "start" appId (snd stop_call) in
  succeeded (fst stop_call) = true ->
  fst start_call = Throw e ->
  fst (App.restart ext m) = Throw e
  /\ App.current_state (snd (App.restart ext m)) = restarting
  /\ App.events (snd (App.restart ext m)) =
       App.events m ++ [EvSetState restarting; EvAppScript "stop" appId;
                        EvAppScript "start" appId]
  /\ App.host_of (snd (App.restart ext m)) = snd start_call.
Proof.
  unfold_methods. cbn. destruct_machine m.
  next_call; [|discriminate]. intros _.
  next_call; [discriminate|]. intros [= ->].
  rewrite <- !app_assoc. repeat split.
Qed.

(** [restart()] does to the host what [stop()] followed by [start()]
    does: the same result, the same host and the same store in every run,
    and on success the same final state. *)
Theorem restart_as_stop_then_start m :
  let sequence : M (App.Machine Host) bool := App.stop ext ;; App.start ext in
  fst (App.restart ext m) = fst (sequence m)
  /\ App.host_of (snd (App.restart ext m)) = App.host_of (snd (sequence m))
  /\ App.store_of (snd (App.restart ext m)) = App.store_of (snd (sequence m))
  /\ (succeeded (fst (App.restart ext m)) = true ->
      App.current_state (snd (App.restart ext m))
      = App.current_state (snd (sequence m))).
Proof.
  unfold_methods. cbn. destruct_machine m.
  repeat next_call; repeat split; discriminate.
Qed.

(** [install()] runs the install script only after the patched descriptor
    is on disk: when the descriptor cannot be read, or the patched one
    cannot be written, the error propagates and the script is not run. *)
Theorem install_needs_compose m e :
  let self := App.this m in
  let path := App.compose_path self in
  (forall h1, readYaml ext path (App.host_of m) = (Throw e, h1) ->
     fst (App.install ext m) = Throw e
     /\ App.events (snd (App.install ext m)) =
          App.events m ++ [EvSetState installing; EvReadYaml path]
     /\ App.host_of (snd (App.install ext m)) = h1)
  /\ (forall c h1 h2,
        readYaml ext path (App.host_of m) = (Ok c, h1) ->
        writeYaml ext path (patch_compose (App.id self) c) h1 = (Throw e, h2) ->
        fst (App.install ext m) = Throw e
        /\ App.events (snd (App.install ext m)) =
             App.events m ++ [EvSetState installing; EvReadYaml path;
                              EvWriteYaml path (patch_compose (App.id self) c)]
        /\ App.host_of (snd (App.install ext m)) = h2).
Proof.
  unfold_methods. cbn. destruct_machine m. split.
  - intros h1 ->. cbn. rewrite <- !app_assoc. repeat split.
  - intros c h1 h2 ->. cbn. intros ->. cbn. rewrite <- !app_assoc. repeat split.
Qed.

(** [update()] attempts the removal of images only at the end of a run in
    which every earlier step succeeded: a run that throws has made no
    [docker rmi] call. *)
Theorem update_failure_removes_nothing m e :
  fst (App.update ext m) = Throw e ->
  exists evs,
    App.events (snd (App.update ext m)) = App.events m ++ evs
    /\ forall images, ~ In (EvDockerRmi images) evs.
Proof.
  unfold_methods. cbn. destruct_machine m.
  repeat next_call; try discriminate; intros _;
    rewrite <- !app_assoc; (eexists; split; [reflexivity|]);
    intros images; not_in_events.
Qed.

(** [uninstall()] removes nothing when the [stop] script fails, and does
    not touch the persisted list when the removal of the data directory
    fails: in both cases the error propagates and the store is as
    before. *)
Theorem uninstall_aborts_early m e :
  let self := App.this m in
  let stop_call := appScript ext "stop" (App.id self) (App.host_of m) in
  (fst stop_call = Throw e ->
     fst (App.uninstall ext m) = Throw e
     /\ App.events (snd (App.uninstall ext m)) =
          App.events m ++ [EvSetState uninstalling;
                           EvAppScript "stop" (App.id self)]
     /\ App.store_of (snd (App.uninstall ext m)) = App.store_of m)
  /\ (succeeded (fst stop_call) = true ->
      fst (fse_remove ext (App.dataDirectory self) (snd stop_call)) = Throw e ->
      fst (App.uninstall ext m) = Throw e
      /\ App.events (snd (App.uninstall ext m)) =
           App.events m ++ [EvSetState uninstalling;
                            EvAppScript "stop" (App.id self);
                            EvRemove (App.dataDirectory self)]
      /\ App.store_of (snd (App.uninstall ext m)) = App.store_of m).
Proof.
  unfold_methods. cbn. destruct_machine m. split.
  - next_call; [discriminate|]. intros [= ->].
    rewrite <- !app_assoc. repeat split.
  - next_call; [|discriminate]. intros _.
    next_call; [discriminate|]. intros [= ->].
    rewrite <- !app_assoc. repeat split.
Qed.

(** What a successful [uninstall()] does to the store. *)
Lemma uninstall_store m b :
  fst (App.uninstall ext m) = Ok b ->
  exists apps,
    App.store_of m !! "apps" = Some apps
    /\ App.store_of (snd (App.uninstall ext m)) =
         <["apps" := List.remove string_dec (App.id (App.this m)) apps]>
           (App.store_of m)
    /\ App.id (App.this (snd (App.uninstall ext m))) = App.id (App.this m).
Proof.
  unfold_methods. cbn. destruct_machine m.
  next_call; [|discriminate]. next_call; [|discriminate].
  destruct (sto !! "apps") as [apps|] eqn:Happs; cbn; [|discriminate].
  intros _. exists apps. unfold App.without_id. cbn.
  rewrite <- !without_id_remove. repeat split.
Qed.

(** After a successful [uninstall()] the application's ID is not in the
    persisted list, every other ID is in it exactly when it was before,
    and a second successful [uninstall()] leaves the store as the first
    one left it. *)
Theorem uninstall_twice m b :
  fst (App.uninstall ext m) = Ok b ->
  let appId := App.id (App.this m) in
  let m1 := snd (App.uninstall ext m) in
  (exists before after,
      App.store_of m !! "apps" = Some before
      /\ App.store_of m1 !! "apps" = Some after
      /\ ~ In appId after
      /\ forall other, other <> appId -> (In other after <-> In other before))
  /\ (forall b', fst (App.uninstall ext m1) = Ok b' ->
        App.store_of (snd (App.uninstall ext m1)) = App.store_of m1).
Proof.
  intros Hok appId m1.
  destruct (uninstall_store m b Hok) as (apps & Happs & Hstore & Hid).
  fold m1 in Hstore, Hid. fold appId in Hstore, Hid. split.
  - exists apps, (List.remove string_dec appId apps).
    split; [exact Happs|]. split; [rewrite Hstore; apply lookup_insert_eq|].
    split; [apply List.remove_In|].
    intros other Hne. split.
    + intros Hin. now apply List.in_remove in Hin.
    + intros Hin. apply List.in_in_remove; [exact Hne | exact Hin].
  - intros b' Hok'.
    destruct (uninstall_store m1 b' Hok') as (apps1 & Happs1 & Hstore1 & _).
    rewrite Hstore1, Hid.
    rewrite Hstore, lookup_insert_eq in Happs1. injection Happs1 as <-.
    rewrite (List.notin_remove string_dec _ appId) by apply List.remove_In.
    rewrite Hstore. apply insert_insert_eq.
Qed.

(** Running [patchComposeServices()] again on a file system that gives
    back what was written changes nothing: the second run writes the very
    descriptor the first run wrote. *)
Theorem patch_file_twice m c h1 h2 h3 :
  let self := App.this m in
  let path := App.compose_path self in
  let patched := patch_compose (App.id self) c in
  readYaml ext path (App.host_of m) = (Ok c, h1) ->
  writeYaml ext path patched h1 = (Ok tt, h2) ->
  readYaml ext path h2 = (Ok patched, h3) ->
  let m1 := snd (App.patchComposeServices ext m) in
  App.events m1 = App.events m ++ [EvReadYaml path; EvWriteYaml path patched]
  /\ App.events (snd (App.patchComposeServices ext m1)) =
       App.events m1 ++ [EvReadYaml path; EvWriteYaml path patched].
Proof.
  unfold_methods. cbn. destruct_machine m.
  intros Hread Hwrite Hread'.
  rewrite Hread. cbn. rewrite Hwrite. cbn. rewrite Hread'. cbn.
  assert (Hidem : patch_compose appId (patch_compose appId c)
                  = patch_compose appId c).
  { unfold patch_compose. cbn [services compose_rest]. f_equal.
    rewrite !patch_services_fold, patch_keys_keys. apply patch_keys_idem. }
  rewrite Hidem.
  destruct (writeYaml ext (dir +:+ "/docker-compose.yml")
              (patch_compose appId c) h3) as [r h4].
  cbn. rewrite <- !app_assoc. split; reflexivity.
Qed.

(** The usage queries stop at the first failing step: when the
    descriptor cannot be read the engine is not queried, and when the
    engine query fails the host's memory is not looked up; the error
    propagates. The engine is asked about the container names of the
    services in their order. *)
Theorem memory_usage_stops_at_first_failure m e :
  let path := App.compose_path (App.this m) in
  (forall h1, readYaml ext path (App.host_of m) = (Throw e, h1) ->
     fst (App.getMemoryUsage ext m) = Throw e
     /\ App.events (snd (App.getMemoryUsage ext m)) =
          App.events m ++ [EvReadYaml path])
  /\ (forall c h1 h2,
        readYaml ext path (App.host_of m) = (Ok c, h1) ->
        let names := map container_name (object_values (services c)) in
        docker_stats ext names h1 = (Throw e, h2) ->
        fst (App.getMemoryUsage ext m) = Throw e
        /\ App.events (snd (App.getMemoryUsage ext m)) =
             App.events m ++ [EvReadYaml path; EvDockerStats names]).
Proof.
  unfold_methods. cbn. destruct_machine m. split.
  - intros h1 ->. cbn. repeat split.
  - intros c h1 h2 ->. cbn. intros ->. cbn. rewrite <- !app_assoc. repeat split.
Qed.

End LifecycleRuns.

(** ** Construction and the data directory *)

Lemma test_app_id_true (appId : string) :
  App.test_app_id appId = true ->
  appId <> "" /\ forall c, In c (characters appId) -> restricted_char c.
Proof.
  unfold App.test_app_id. destruct appId as [|a rest]; [discriminate|].
  intros Hall. split; [discriminate|]. now apply all_id_chars_restricted.
Qed.

(** A controller that was constructed has a non-empty ID without a slash
    or a dot, so its data directory is [<base>/app-data/<id>] with [<id>]
    a single path segment; it starts in state [unknown], and construction
    does nothing to the world but create the child logger. *)
Theorem constructed_id_is_one_path_segment {Host : Type}
    (base appId : string) (w : World Host) (app : App.t) :
  fst (App.constructor base appId w) = Ok app ->
  appId <> ""
  /\ ~ In "/"%char (characters appId)
  /\ ~ In "."%char (characters appId)
  /\ App.id app = appId
  /\ App.dataDirectory app = base +:+ "/app-data/" +:+ appId
  /\ App.state app = unknown
  /\ snd (App.constructor base appId w)
     = mkWorld (host w) (store w) (trace w ++ [EvCreateChildLogger "app"]).
Proof.
  unfold App.constructor.
  destruct (App.test_app_id appId) eqn:Htest; cbn; [|discriminate].
  intros [= <-]. destruct (test_app_id_true appId Htest) as [Hne Hall].
  split; [exact Hne|].
  split; [|split].
  - intros Hin. apply Hall, id_char_restricted in Hin. discriminate.
  - intros Hin. apply Hall, id_char_restricted in Hin. discriminate.
  - repeat split.
Qed.

Lemma constructed_id_is_one_path_segment_witness :
  ~ In "/"%char (characters "bitcoin")
  /\ App.dataDirectory (App.mk "bitcoin" "/data/app-data/bitcoin" unknown
                               (Number.of_Z 0))
     = "/data/app-data/bitcoin".
Proof.
  destruct (constructed_id_is_one_path_segment "/data" "bitcoin"
              (Sim.world0 Sim.host0)
              (App.mk "bitcoin" "/data/app-data/bitcoin" unknown (Number.of_Z 0))
              eq_refl)
    as (_ & Hslash & _ & _ & Hdir & _).
  split; [exact Hslash | exact Hdir].
Defined.

(** ** The engine's output, line by line *)

Lemma split_newline_nonempty (s : string) : split_newline s <> [].
Proof.
  induction s as [|c s IH]; simpl; [discriminate|].
  destruct (Ascii.eqb c "010"); [discriminate|].
  destruct (split_newline s); discriminate.
Qed.

Lemma join_newline_char (c : ascii) (line : string) (rest : list string) :
  join_newline (String c line :: rest) = String c (join_newline (line :: rest)).
Proof. destruct rest; reflexivity. Qed.

Lemma join_split_newline (s : string) : join_newline (split_newline s) = s.
Proof.
  induction s as [|c s IH]; [reflexivity|].
  cbn [split_newline].
  pose proof (split_newline_nonempty s) as Hne.
  destruct (split_newline s) as [|l ls]; [congruence|].
  destruct (Ascii.eqb_spec c "010") as [->|Hc].
  - change (join_newline (EmptyString :: l :: ls))
      with (EmptyString +:+ String "010" (join_newline (l :: ls))).
    now rewrite IH.
  - now rewrite join_newline_char, IH.
Qed.

Lemma parse_each_Ok parse lines samples :
  parse_each parse lines = Ok samples ->
  Forall2 (fun line sample => parse line = Ok sample) lines samples.
Proof.
  revert samples. induction lines as [|line lines IH]; intros samples; simpl.
  - intros [= <-]. constructor.
  - destruct (parse line) as [s|e] eqn:Hline; [|discriminate].
    destruct (parse_each parse lines) as [ss|e]; [|discriminate].
    intros [= <-]. constructor; auto.
Qed.

Lemma parse_each_Throw parse lines line e :
  In line lines -> parse line = Throw e ->
  exists e', parse_each parse lines = Throw e'.
Proof.
  intros Hin Hbad. induction lines as [|l lines IH]; [destruct Hin|].
  simpl. destruct Hin as [->|Hin].
  - rewrite Hbad. eauto.
  - destruct (parse l) as [s|e0]; [|eauto].
    destruct (IH Hin) as [e' ->]. eauto.
Qed.

Section ResourceUsage.
Context {Host : Type} (ext : Externals Host).
Variable run_docker_stats : list (option string) -> Host -> Outcome string * Host.
Variable JSON_parse : string -> Outcome UsageSample.
Implicit Types (m : App.Machine Host).

Lemma getResourceUsage_lines m c h1 stdout h2 :
  readYaml ext (App.compose_path (App.this m)) (App.host_of m) = (Ok c, h1) ->
  run_docker_stats (map container_name (object_values (services c))) h1
    = (Ok stdout, h2) ->
  fst (App.getResourceUsage
         (with_docker_stats ext run_docker_stats JSON_parse) m)
  = parse_each JSON_parse (split_newline stdout).
Proof.
  unfold_methods. unfold with_docker_stats, docker_stats_from. cbn.
  destruct_machine m. intros ->. cbn. intros ->. cbn.
  now destruct (parse_each JSON_parse (split_newline stdout)).
Qed.

(** [getResourceUsage()] reads the engine's output line by line: the
    lines joined by newlines are the output; a result has one sample per
    line, each the parse of its line, and is never empty; one line that
    does not parse makes the query throw; and an empty output is one empty
    line, so the query returns or throws as [JSON.parse("")] does. *)
Theorem resource_usage_line_by_line m c h1 stdout h2 :
  readYaml ext (App.compose_path (App.this m)) (App.host_of m) = (Ok c, h1) ->
  run_docker_stats (map container_name (object_values (services c))) h1
    = (Ok stdout, h2) ->
  let result :=
    fst (App.getResourceUsage
           (with_docker_stats ext run_docker_stats JSON_parse) m) in
  join_newline (split_newline stdout) = stdout
  /\ (forall samples, result = Ok samples ->
        samples <> []
        /\ Forall2 (fun line sample => JSON_parse line = Ok sample)
             (split_newline stdout) samples)
  /\ (forall line e, In line (split_newline stdout) ->
        JSON_parse line = Throw e -> exists e', result = Throw e')
  /\ (stdout = "" ->
      result = match JSON_parse "" with
               | Ok sample => Ok [sample]
               | Throw e => Throw e
               end).
Proof.
  intros Hread Hrun result.
  assert (Hres : result = parse_each JSON_parse (split_newline stdout))
    by (now apply (getResourceUsage_lines m c h1 stdout h2)).
  split; [apply join_split_newline|]. split; [|split].
  - intros samples Hok. rewrite Hres in Hok.
    apply parse_each_Ok in Hok. split; [|exact Hok].
    intros ->. inversion Hok as [Hnil|]; subst.
    now apply (split_newline_nonempty stdout).
  - intros line e Hin Hbad. rewrite Hres.
    now apply (parse_each_Throw JSON_parse _ line e).
  - intros ->. rewrite Hres. cbn. now destruct (JSON_parse "").
Qed.

End ResourceUsage.

(** ** Further runs on the simulated host *)

Lemma failure_leaves_intermediate_state_witness :
  App.current_state
    (snd (App.update Sim.externals
            (Sim.machine0 (Sim.failing ["post-patch-update"] Sim.host0))))
  = updating
  /\ App.current_state
       (snd (App.stop Sim.externals (Sim.machine0 (Sim.failing ["stop"] Sim.host0))))
     = stopping.
Proof.
  split.
  - destruct (failure_leaves_intermediate_state Sim.externals
                (Sim.machine0 (Sim.failing ["post-patch-update"] Sim.host0))
                (ExternalError "app-script" "post-patch-update"))
      as (_ & Hupdate & _).
    exact (Hupdate eq_refl).
  - destruct (failure_leaves_intermediate_state Sim.externals
                (Sim.machine0 (Sim.failing ["stop"] Sim.host0))
                (ExternalError "app-script" "stop"))
      as (_ & _ & _ & Hstop & _).
    exact (Hstop eq_refl).
Defined.

Lemma restart_start_failure_witness :
  fst (App.restart Sim.externals (Sim.machine0 (Sim.failing ["start"] Sim.host0)))
    = Throw (ExternalError "app-script" "start")
  /\ App.current_state
       (snd (App.restart Sim.externals
               (Sim.machine0 (Sim.failing ["start"] Sim.host0))))
     = restarting.
Proof.
  destruct (restart_start_failure Sim.externals
              (Sim.machine0 (Sim.failing ["start"] Sim.host0))
              (ExternalError "app-script" "start") eq_refl eq_refl)
    as (Hres & Hstate & _).
  split; [exact Hres | exact Hstate].
Defined.

Lemma restart_as_stop_then_start_witness :
  fst (App.restart Sim.externals (Sim.machine0 Sim.host0)) = Ok true
  /\ App.current_state (snd (App.restart Sim.externals (Sim.machine0 Sim.host0)))
     = App.current_state
         (snd ((App.stop Sim.externals ;; App.start Sim.externals)
                 (Sim.machine0 Sim.host0))).
Proof.
  destruct (restart_as_stop_then_start Sim.externals (Sim.machine0 Sim.host0))
    as (_ & _ & _ & Hstate).
  split; [reflexivity | exact (Hstate eq_refl)].
Defined.

Lemma install_needs_compose_witness :
  let m := Sim.machine0 (Sim.with_compose Sim.host0 None) in
  fst (App.install Sim.externals m)
    = Throw (ExternalError "readFile" "/data/app-data/bitcoin/docker-compose.yml")
  /\ App.events (snd (App.install Sim.externals m))
     = [EvSetState installing;
        EvReadYaml "/data/app-data/bitcoin/docker-compose.yml"].
Proof.
  intros m.
  destruct (install_needs_compose Sim.externals m
              (ExternalError "readFile" "/data/app-data/bitcoin/docker-compose.yml"))
    as [Hread _].
  destruct (Hread (Sim.with_compose Sim.host0 None) eq_refl)
    as (Hres & Hev & _).
  split; [exact Hres | exact Hev].
Defined.

Lemma update_failure_removes_nothing_witness :
  exists evs,
    App.events
      (snd (App.update Sim.externals
              (Sim.machine0 (Sim.failing ["post-patch-update"] Sim.host0))))
    = [] ++ evs
    /\ forall images, ~ In (EvDockerRmi images) evs.
Proof.
  apply (update_failure_removes_nothing Sim.externals
           (Sim.machine0 (Sim.failing ["post-patch-update"] Sim.host0))
           (ExternalError "app-script" "post-patch-update")).
  reflexivity.
Defined.

Lemma uninstall_aborts_early_witness :
  let m := Sim.machine0 (Sim.failing ["stop"] Sim.host0) in
  fst (App.uninstall Sim.externals m) = Throw (ExternalError "app-script" "stop")
  /\ App.store_of (snd (App.uninstall Sim.externals m)) = App.store_of m.
Proof.
  intros m.
  destruct (uninstall_aborts_early Sim.externals m
              (ExternalError "app-script" "stop"))
    as [Hstop _].
  destruct (Hstop eq_refl) as (Hres & _ & Hstore).
  split; [exact Hres | exact Hstore].
Defined.

Lemma uninstall_twice_witness :
  let m := Sim.machine0 Sim.host0 in
  let m1 := snd (App.uninstall Sim.externals m) in
  fst (App.uninstall Sim.externals m1) = Ok true
  /\ App.store_of (snd (App.uninstall Sim.externals m1)) = App.store_of m1.
Proof.
  intros m m1.
  destruct (uninstall_twice Sim.externals m true eq_refl) as [_ Hagain].
  split; [reflexivity | exact (Hagain true eq_refl)].
Defined.

Lemma patch_file_twice_witness :
  let m := Sim.machine0 Sim.host0 in
  let m1 := snd (App.patchComposeServices Sim.externals m) in
  let path := "/data/app-data/bitcoin/docker-compose.yml" in
  App.events (snd (App.patchComposeServices Sim.externals m1))
  = App.events m1
    ++ [EvReadYaml path; EvWriteYaml path (patch_compose "bitcoin" Sim.compose_v1)].
Proof.
  intros m m1 path.
  pose (h2 := Sim.with_compose Sim.host0
                (Some (patch_compose "bitcoin" Sim.compose_v1))).
  exact (proj2 (patch_file_twice Sim.externals m Sim.compose_v1 Sim.host0 h2 h2
                  eq_refl eq_refl eq_refl)).
Defined.

Lemma memory_usage_stops_at_first_failure_witness :
  let m := Sim.machine0 (Sim.with_compose Sim.host0 None) in
  App.events (snd (App.getMemoryUsage Sim.externals m))
  = [EvReadYaml "/data/app-data/bitcoin/docker-compose.yml"].
Proof.
  intros m.
  destruct (memory_usage_stops_at_first_failure Sim.externals m
              (ExternalError "readFile" "/data/app-data/bitcoin/docker-compose.yml"))
    as [Hread _].
  exact (proj2 (Hread (Sim.with_compose Sim.host0 None) eq_refl)).
Defined.

Lemma resource_usage_line_by_line_witness :
  fst (App.getResourceUsage
         (with_docker_stats Sim.externals (sim_run_stats "") sim_JSON_parse)
         (Sim.machine0 Sim.host_patched))
  = Throw (ExternalError "JSON.parse" "Unexpected end of JSON input").
Proof.
  destruct (resource_usage_line_by_line Sim.externals (sim_run_stats "")
              sim_JSON_parse (Sim.machine0 Sim.host_patched) Sim.compose_patched Sim.host_patched
              "" Sim.host_patched eq_refl eq_refl)
    as (_ & _ & _ & Hempty).
  exact (Hempty eq_refl).
Defined.

(** ** The patch on a loaded descriptor, sharing included *)

Lemma iteration_lookup appId bs k (objs : list Service) r s :
  objs !! r = Some s ->
  loop_iteration appId bs objs k !! r
  = Some (if bound_to bs r k && negb (JS.truthy (container_name s))
          then set_container_name s (JS.container_name_template appId k)
          else s).
Proof.
  intros Hr. unfold loop_iteration, bound_to.
  destruct (get_ref k bs) as [rk|]; [|exact Hr].
  destruct (Nat.eqb_spec rk r) as [->|Hne]; cbn [andb].
  - rewrite Hr. destruct (JS.truthy (container_name s)); cbn [negb]; [exact Hr|].
    apply list_lookup_insert_eq. now apply lookup_lt_Some in Hr.
  - destruct (objs !! rk) as [sk|]; [|exact Hr].
    destruct (JS.truthy (container_name sk)); cbn [negb]; [exact Hr|].
    now rewrite list_lookup_insert_ne.
Qed.

Lemma loop_lookup appId bs ks (objs : list Service) r s :
  objs !! r = Some s ->
  fold_left (loop_iteration appId bs) ks objs !! r
  = Some (loop_result appId bs ks r s).
Proof.
  revert objs s. induction ks as [|k ks IH]; intros objs s Hr.
  - cbn. rewrite Hr. unfold loop_result. cbn.
    now destruct (JS.truthy (container_name s)).
  - cbn [fold_left].
    rewrite (IH _ _ (iteration_lookup appId bs k objs r s Hr)).
    unfold loop_result. cbn [List.find].
    destruct (bound_to bs r k); cbn [andb]; [|reflexivity].
    destruct (JS.truthy (container_name s)) eqn:Hs; cbn [negb].
    + now rewrite Hs.
    + unfold set_container_name at 1. cbn [container_name].
      now rewrite template_truthy.
Qed.

Lemma get_ref_key k bs r : get_ref k bs = Some r -> In k (map fst bs).
Proof.
  induction bs as [|[k' r'] bs IH]; simpl; [discriminate|].
  destruct (String.eqb_spec k' k); auto.
Qed.

Lemma first_name_exists bs k r :
  get_ref k bs = Some r -> exists first, first_name bs r = Some first.
Proof.
  intros Hk. unfold first_name.
  destruct (List.find (bound_to bs r) (map fst bs)) as [first|] eqn:Hfind; [eauto|].
  exfalso.
  pose proof (List.find_none _ _ Hfind k (get_ref_key k bs r Hk)) as Hno.
  unfold bound_to in Hno. rewrite Hk, Nat.eqb_refl in Hno. discriminate.
Qed.




(** ** Without sharing: the loaded descriptor and what it shows *)

Lemma get_ref_In k bs r : get_ref k bs = Some r -> In (k, r) bs.
Proof.
  induction bs as [|[k' r'] bs IH]; simpl; [discriminate|].
  destruct (String.eqb_spec k' k) as [->|Hne]; [intros [= ->]; now left | auto].
Qed.

Lemma In_get_ref k (bs : list (string * nat)) r :
  List.NoDup (map fst bs) -> In (k, r) bs -> get_ref k bs = Some r.
Proof.
  induction bs as [|[k' r'] bs IH]; simpl; [tauto|].
  intros Hnd [Hin|Hin]; apply List.NoDup_cons_iff in Hnd as [Hnot Hnd].
  - injection Hin as -> ->. now rewrite String.eqb_refl.
  - destruct (String.eqb_spec k' k) as [->|Hne]; [|auto].
    exfalso. apply Hnot. apply in_map_iff. now exists (k, r).
Qed.

Lemma same_object_same_name (bs : list (string * nat)) a b r :
  List.NoDup (map snd bs) -> In (a, r) bs -> In (b, r) bs -> a = b.
Proof.
  induction bs as [|[k' r'] bs IH]; simpl; [tauto|].
  intros Hnd Ha Hb. apply List.NoDup_cons_iff in Hnd as [Hnot Hnd].
  destruct Ha as [Ha|Ha], Hb as [Hb|Hb].
  - congruence.
  - injection Ha as -> ->. exfalso. apply Hnot.
    apply in_map_iff. now exists (b, r).
  - injection Hb as -> ->. exfalso. apply Hnot.
    apply in_map_iff. now exists (a, r).
  - auto.
Qed.

Lemma first_name_own (bs : list (string * nat)) k r :
  List.NoDup (map fst bs) -> List.NoDup (map snd bs) ->
  In (k, r) bs -> first_name bs r = Some k.
Proof.
  intros Hkeys Hrefs Hin.
  pose proof (In_get_ref k bs r Hkeys Hin) as Hk.
  destruct (first_name_exists bs k r Hk) as [first Hfirst].
  rewrite Hfirst. f_equal.
  unfold first_name in Hfirst. apply List.find_some in Hfirst as [_ Hbound].
  unfold bound_to in Hbound.
  destruct (get_ref first bs) as [r'|] eqn:Hf; [|discriminate].
  apply Nat.eqb_eq in Hbound. subst r'.
  exact (same_object_same_name bs first k r Hrefs (get_ref_In _ _ _ Hf) Hin).
Qed.

Lemma loop_iteration_length appId bs (objs : list Service) k :
  length (loop_iteration appId bs objs k) = length objs.
Proof.
  unfold loop_iteration.
  destruct (get_ref k bs); [|reflexivity].
  destruct (objs !! _) as [s|]; [|reflexivity].
  destruct (negb _); [apply length_insert | reflexivity].
Qed.

Lemma patch_objects_None appId bs ks (objs : list Service) r :
  objs !! r = None -> fold_left (loop_iteration appId bs) ks objs !! r = None.
Proof.
  revert objs. induction ks as [|k ks IH]; intros objs Hr; [exact Hr|].
  cbn [fold_left]. apply IH. apply lookup_ge_None.
  rewrite loop_iteration_length. now apply lookup_ge_None.
Qed.

(** The entry that a binding shows, before and after the loop. *)
Lemma shown_entry_patched appId (bs : list (string * nat)) k r :
  List.NoDup (map fst bs) -> List.NoDup (map snd bs) -> In (k, r) bs ->
  forall objs : list Service,
  patch_objects appId bs objs !! r = patch_service appId k <$> objs !! r.
Proof.
  intros Hkeys Hrefs Hin objs. unfold patch_objects.
  destruct (objs !! r) as [s|] eqn:Hr.
  - rewrite (loop_lookup appId bs _ objs r s Hr). cbn. f_equal.
    unfold loop_result, patch_service.
    pose proof (first_name_own bs k r Hkeys Hrefs Hin) as Hfirst.
    unfold first_name in Hfirst. rewrite Hfirst.
    now destruct (JS.truthy (container_name s)).
  - now apply patch_objects_None.
Qed.

Lemma shown_keys (objs : list Service) (bs : list (string * nat)) k :
  In k (map fst (omap (fun b : string * nat =>
                         match objs !! snd b with
                         | Some s => Some (fst b, s)
                         | None => None
                         end) bs)) ->
  In k (map fst bs).
Proof.
  induction bs as [|[k' r] bs IH]; cbn; [tauto|].
  destruct (objs !! r); cbn; intuition.
Qed.

Lemma shown_keys_NoDup (objs : list Service) (bs : list (string * nat)) :
  List.NoDup (map fst bs) ->
  List.NoDup (map fst (omap (fun b : string * nat =>
                               match objs !! snd b with
                               | Some s => Some (fst b, s)
                               | None => None
                               end) bs)).
Proof.
  induction bs as [|[k r] bs IH]; cbn; intros Hnd; [constructor|].
  apply List.NoDup_cons_iff in Hnd as [Hnot Hnd].
  destruct (objs !! r); cbn; [|auto].
  constructor; [|auto]. intros Hin. apply Hnot. now apply shown_keys in Hin.
Qed.

Lemma shown_patched_entries appId (all bs : list (string * nat))
    (objs : list Service) :
  List.NoDup (map fst all) -> List.NoDup (map snd all) ->
  (forall b, In b bs -> In b all) ->
  omap (fun b : string * nat =>
          match patch_objects appId all objs !! snd b with
          | Some s => Some (fst b, s)
          | None => None
          end) bs
  = map (patch_entry appId)
        (omap (fun b : string * nat =>
                 match objs !! snd b with
                 | Some s => Some (fst b, s)
                 | None => None
                 end) bs).
Proof.
  intros Hkeys Hrefs. induction bs as [|[k r] bs IH]; intros Hsub; [reflexivity|].
  cbn [omap list_omap fst snd].
  rewrite (shown_entry_patched appId all k r Hkeys Hrefs (Hsub _ (or_introl eq_refl))).
  rewrite IH by (intros b Hb; apply Hsub; now right).
  now destruct (objs !! r).
Qed.

(** In a descriptor where the service names are distinct and no two of
    them share an object, the loop works entry by entry: what the
    descriptor shows afterwards is what it showed, with the rule of the
    loop applied to each service in place; this is the patch on
    [Services]; and every container name that [getResourceUsage] then
    hands to the engine is a non-empty string. *)
Theorem patch_entrywise_without_sharing (appId : string) (d : Loaded) :
  List.NoDup (map fst (bindings d)) ->
  List.NoDup (map snd (bindings d)) ->
  services (shown (patch_loaded appId d))
    = map (patch_entry appId) (services (shown d))
  /\ shown (patch_loaded appId d) = patch_compose appId (shown d)
  /\ Forall (fun name => JS.truthy name = true)
       (map container_name
            (object_values (services (shown (patch_loaded appId d))))).
Proof.
  intros Hkeys Hrefs.
  assert (Hmap : services (shown (patch_loaded appId d))
                 = map (patch_entry appId) (services (shown d))).
  { unfold shown, patch_loaded. cbn [services bindings objects].
    now apply shown_patched_entries. }
  split; [exact Hmap|]. split.
  - unfold patch_compose. rewrite patch_services_map.
    + unfold shown at 1, patch_loaded. cbn [bindings objects loaded_rest].
      f_equal. exact Hmap.
    + unfold shown. cbn [services]. now apply shown_keys_NoDup.
  - rewrite Hmap. unfold object_values. rewrite !map_map.
    apply List.Forall_forall. intros name Hin.
    apply in_map_iff in Hin as ([k s] & <- & _). apply patch_service_truthy.
Qed.

Lemma patch_entrywise_without_sharing_witness :
  let d := mkLoaded [("web", 0%nat); ("db", 1%nat)] [Sim.web; Sim.db]
                    [("version", YStr "3.7")] in
  shown d = Sim.compose_v1
  /\ services (shown (patch_loaded "bitcoin" d))
     = [("web", mkService (Some "nginx:1.0") (Some "bitcoin_web_1") []);
        ("db", Sim.db)].
Proof.
  intros d. split; [reflexivity|].
  apply (proj1 (patch_entrywise_without_sharing "bitcoin" d
                  ltac:(repeat constructor; simpl; intuition discriminate)
                  ltac:(repeat constructor; simpl; intuition discriminate))).
Defined.

(** On the host as installed, where [web] has no container name yet, the
    usage query throws before the engine is asked. *)
Example usage_query_needs_names :
  fst (App.getCpuUsage Sim.externals (Sim.machine0 Sim.host0))
  = Throw (TypeError "Unexpected undefined in template expression").
Proof. reflexivity. Qed.
